(** * SIMA sequences: a shallow embedding of [sima/sequence.py]

    The development follows the layout of the Python module:
    - a small model of the Python / numpy values the module manipulates
      (exceptions, index selectors, list indexing, n-dimensional arrays);
    - the sequence classes ([_Sequence_HDF5], [_MotionCorrectedSequence],
      [_IndexedSequence]) with their dynamically dispatched methods;
    - the cursor protocol of [_IndexableSequence.__iter__];
    - the gap filler [_fill_gaps] over IEEE binary64 pixels;
    - the path resolver [_resolve_paths].
    Definitions come first, the theorems about them follow. *)

From Stdlib Require Import ZArith List Bool Ascii String Lia.
From Stdlib Require Import Floats.SpecFloat.
From Stdlib Require Import Sorted.
From stdpp Require Import base option list gmap strings.

Local Open Scope Z_scope.

(* ===================================================================== *)
(** * Python values                                                       *)
(* ===================================================================== *)

(** The exception classes the module can raise.  [Exception_] is the bare
    [Exception] of [_resolve_paths]; it carries its message. *)
Inductive exn :=
| TypeError
| ValueError
| IndexError
| KeyError
| AttributeError (msg : string)
| Exception_ (msg : string).

Inductive result (A : Type) :=
| Ok (a : A)
| Raise (e : exn).
Arguments Ok {A} a.
Arguments Raise {A} e.

#[global] Instance result_ret : MRet result := @Ok.
#[global] Instance result_bind : MBind result :=
  fun A B f m => match m with Ok a => f a | Raise e => Raise e end.
#[global] Instance result_fmap : FMap result :=
  fun A B f m => match m with Ok a => Ok (f a) | Raise e => Raise e end.

(** A computation that does not raise [AttributeError]. *)
Definition benign {A} (r : result A) : Prop :=
  forall msg, r <> Raise (AttributeError msg).

(** A generator is observed through what it yields before it stops: the
    frames, then either a normal end ([None]) or the exception that ended
    it. *)
Definition stream (A : Type) : Type := (list A * option exn)%type.

(** An index selector: [None], an integer, or [slice(start, stop, step)]. *)
Inductive selector :=
| SNone
| SInt (i : Z)
| SSlice (start stop step : option Z).

Definition slice_None : selector := SSlice None None None.

(** The argument of [__getitem__]: a bare selector ([m[3]], [m[5:10]]) or a
    tuple of selectors ([m[5:10, :, 2]]). *)
Inductive pyindex :=
| Bare (s : selector)
| Tuple (l : list selector).

(** [len(indices)]: only a tuple has a length. *)
Definition py_len (indices : pyindex) : result nat :=
  match indices with
  | Bare _ => Raise TypeError
  | Tuple l => Ok (length l)
  end.

(** [indices if isinstance(indices, tuple) else (indices,)] *)
Definition as_tuple (indices : pyindex) : list selector :=
  match indices with
  | Bare s => [s]
  | Tuple l => l
  end.

(** [x in (None, slice(None))] *)
Definition is_full (s : selector) : bool :=
  match s with
  | SNone => true
  | SSlice None None None => true
  | _ => false
  end.

(** [l[i]] for an integer [i]: negative indices count from the end. *)
Definition py_index {A} (l : list A) (i : Z) : result A :=
  let n := Z.of_nat (length l) in
  let j := if i <? 0 then i + n else i in
  if (0 <=? j) && (j <? n)
  then match l !! Z.to_nat j with
       | Some x => Ok x
       | None => Raise IndexError
       end
  else Raise IndexError.

(** [l[i] = x] *)
Definition py_setitem {A} (l : list A) (i : Z) (x : A) : result (list A) :=
  let n := Z.of_nat (length l) in
  let j := if i <? 0 then i + n else i in
  if (0 <=? j) && (j <? n)
  then Ok (<[Z.to_nat j := x]> l)
  else Raise IndexError.

(** [slice(start, stop, step).indices(n)] followed by the length
    computation, as CPython's slice adjustment does it. *)
Definition slice_clamp (n step : Z) (bound : option Z) (dflt_pos dflt_neg : Z) : Z :=
  match bound with
  | None => if step <? 0 then dflt_neg else dflt_pos
  | Some s =>
      if s <? 0
      then (if s + n <? 0 then (if step <? 0 then -1 else 0) else s + n)
      else (if n <=? s then (if step <? 0 then n - 1 else n) else s)
  end.

Definition slice_length (start stop step : Z) : nat :=
  if step <? 0
  then (if stop <? start then Z.to_nat ((start - stop - 1) / (- step) + 1) else 0%nat)
  else (if start <? stop then Z.to_nat ((stop - start - 1) / step + 1) else 0%nat).

(** The result is (first index, step, number of elements). *)
Definition slice_indices (n : nat) (start stop step : option Z) : result (Z * Z * nat) :=
  let n := Z.of_nat n in
  let st := default 1 step in
  if st =? 0 then Raise ValueError else
  let b := slice_clamp n st start 0 (n - 1) in
  let e := slice_clamp n st stop n (-1) in
  Ok (b, st, slice_length b e st).

(** What [l[sel]] evaluates to: one element or a sub-list. *)
Inductive item (A : Type) :=
| One (a : A)
| Many (l : list A).
Arguments One {A} a.
Arguments Many {A} l.

Definition slice_positions (b st : Z) (k : nat) : list Z :=
  map (fun j => b + Z.of_nat j * st) (seq 0 k).

Definition list_getitem {A} (l : list A) (sel : selector) : result (item A) :=
  match sel with
  | SNone => Raise TypeError
  | SInt i => One <$> py_index l i
  | SSlice start stop step =>
      '(b, st, k) ← slice_indices (length l) start stop step;
      Ok (Many (omap (fun p => l !! Z.to_nat p) (slice_positions b st k)))
  end.

(** [range(n)] (a list in Python 2) *)
Definition range (n : nat) : list Z := map Z.of_nat (seq 0 n).

(** [s.find(c)] for a one-character needle. *)
Fixpoint find_from (c : ascii) (s : string) (pos : Z) : Z :=
  match s with
  | EmptyString => -1
  | String a s' => if Ascii.eqb a c then pos else find_from c s' (pos + 1)
  end.
Definition find (s : string) (c : ascii) : Z := find_from c s 0.

(* ===================================================================== *)
(** * numpy arrays                                                        *)
(* ===================================================================== *)

(** An n-dimensional array is its shape and its element at each
    multi-index.  Views and copies are not distinguished: none of the
    modelled methods writes through a view of an array it did not create. *)
Record ndarray (A : Type) := NDArray {
  shape : list nat;
  at_ : list nat -> A
}.
Arguments NDArray {A} shape at_.
Arguments shape {A} n.
Arguments at_ {A} n idx.

Definition ndim {A} (a : ndarray A) : nat := length (shape a).

(** [a.astype(t)] *)
Definition astype {A B} (conv : A -> B) (a : ndarray A) : ndarray B :=
  NDArray (shape a) (fun idx => conv (at_ a idx)).

(** Basic indexing [a[sels]]: the shape of the result and the map from a
    multi-index of the result to the multi-index of [a] it reads.  An
    integer drops its axis, a slice keeps it, [None] inserts an axis of
    length one. *)
Fixpoint index_plan (sels : list selector) (shp : list nat)
  : result (list nat * (list nat -> list nat)) :=
  match sels with
  | [] => Ok (shp, fun idx => idx)
  | SNone :: sels' =>
      '(shp', tr) ← index_plan sels' shp;
      Ok (1%nat :: shp', fun idx => tr (tail idx))
  | SInt i :: sels' =>
      match shp with
      | [] => Raise IndexError
      | n :: shp0 =>
          let n' := Z.of_nat n in
          let j := if i <? 0 then i + n' else i in
          if (0 <=? j) && (j <? n')
          then '(shp', tr) ← index_plan sels' shp0;
               Ok (shp', fun idx => Z.to_nat j :: tr idx)
          else Raise IndexError
      end
  | SSlice start stop step :: sels' =>
      match shp with
      | [] => Raise IndexError
      | n :: shp0 =>
          '(b, st, k) ← slice_indices n start stop step;
          '(shp', tr) ← index_plan sels' shp0;
          Ok (k :: shp',
              fun idx => Z.to_nat (b + Z.of_nat (hd 0%nat idx) * st) :: tr (tail idx))
      end
  end.

Definition nd_getitem {A} (a : ndarray A) (sels : list selector) : result (ndarray A) :=
  '(shp', tr) ← index_plan sels (shape a);
  Ok (NDArray shp' (fun idx => at_ a (tr idx))).

(** Exchange the entries at positions [i] and [j] of a list. *)
Definition swap_list {A} (i j : nat) (l : list A) : list A :=
  match l !! i, l !! j with
  | Some x, Some y => <[j := x]> (<[i := y]> l)
  | _, _ => l
  end.

(** [a.swapaxes(i, j)] returns a view with the two axes exchanged; [a]
    itself is left as it was. *)
Definition swapaxes {A} (a : ndarray A) (i j : nat) : result (ndarray A) :=
  if (i <? ndim a)%nat && (j <? ndim a)%nat
  then Ok (NDArray (swap_list i j (shape a)) (fun idx => at_ a (swap_list i j idx)))
  else Raise ValueError.

(** [np.argmin(l)]: position of the first minimum. *)
Fixpoint argmin_from (best : Z) (besti : nat) (pos : nat) (l : list Z) : nat :=
  match l with
  | [] => besti
  | x :: l' =>
      if x <? best then argmin_from x pos (S pos) l'
      else argmin_from best besti (S pos) l'
  end.
Definition argmin (l : list Z) : result nat :=
  match l with
  | [] => Raise ValueError
  | x :: l' => Ok (argmin_from x 0%nat 1%nat l')
  end.

(** Two arrays are equal as numpy compares them: same shape, same element
    at every multi-index within the shape. *)
Definition in_bounds (idx shp : list nat) : Prop := Forall2 lt idx shp.
Definition nd_eq {A} (a b : ndarray A) : Prop :=
  shape a = shape b /\ forall idx, in_bounds idx (shape a) -> at_ a idx = at_ b idx.

Definition is_slice (s : selector) : bool :=
  match s with SSlice _ _ _ => true | _ => false end.

(* ===================================================================== *)
(** * The sequence classes                                                *)
(* ===================================================================== *)

(** Pixels are IEEE binary64 numbers ([float] in numpy). *)
Definition float : Type := spec_float.

(** What the module imports and does not define: the element type of the
    HDF5 dataset with its conversion to [float], and the alignment
    primitive [sima._motion._align_frame] (a pure numeric function of the
    frame, its displacement and the target frame shape). *)
Class Externals := {
  dtype : Type;
  to_float : dtype -> float;
  _align_frame : ndarray float -> ndarray Z -> list nat -> ndarray float
}.

Section Classes.
Context `{Externals}.

(** The instances of the three concrete classes.  [_Sequence_HDF5] keeps
    the opened dataset and [dim_order] (from which [_T_DIM] .. [_C_DIM] are
    computed); the other two keep exactly the attributes their [__init__]
    stores. *)
Inductive Seq :=
| Sequence_HDF5 (_dataset : ndarray dtype) (_dim_order : string)
| MotionCorrectedSequence (_base : Seq) (displacements : ndarray Z)
                          (_frame_shape : list nat)
| IndexedSequence (_base : Seq) (_base_len : nat) (_indices : list selector)
                  (_times : item Z).

(** ** [_Sequence_HDF5] *)

(** The loop of [_get_frame].  [frame.swapaxes(i, idx)] is evaluated and
    its value dropped: the name [frame] stays bound to the same array. *)
Fixpoint swap_loop {A} (axes : list nat) (swapper : list Z) (frame : ndarray A)
  : result (ndarray A) :=
  match axes with
  | [] => Ok frame
  | i :: axes' =>
      k ← argmin (drop i swapper);
      let idx := (k + i)%nat in
      if (idx =? i)%nat then swap_loop axes' swapper frame
      else
        let swapper' := swap_list i idx swapper in
        _ ← swapaxes frame i idx;
        swap_loop axes' swapper' frame
  end.

Definition set_if_present (l : list (option Z)) (dim : Z) (target : Z)
  : result (list (option Z)) :=
  if dim >? -1 then py_setitem l dim (Some target) else Ok l.

Definition _Sequence_HDF5_get_frame (dataset : ndarray dtype) (dim_order : string)
    (t : Z) : result (ndarray float) :=
  let rank := length (shape dataset) in
  let slices := replicate rank slice_None in
  let swapper := replicate rank (@None Z) in
  swapper ← set_if_present swapper (find dim_order "z") 0;
  swapper ← py_setitem swapper (find dim_order "y") (Some 1);
  swapper ← py_setitem swapper (find dim_order "x") (Some 2);
  swapper ← set_if_present swapper (find dim_order "c") 3;
  let swapper := omap (fun x => x) swapper in
  slices ← py_setitem slices (find dim_order "t") (SInt t);
  frame ← nd_getitem dataset slices;
  frame ← swap_loop (seq 0 (ndim frame)) swapper frame;
  Ok (astype to_float frame).

(** [__init__], once the file is open and the dataset selected: the
    dimension order must have one letter per axis of the dataset. *)
Definition _Sequence_HDF5_init (dataset : ndarray dtype) (dim_order : string)
  : result Seq :=
  if negb (String.length dim_order =? length (shape dataset))%nat
  then Raise ValueError
  else Ok (Sequence_HDF5 dataset dim_order).

(** The reordering as the specification words it: every swap of the
    selection sort replaces the frame by the swapped one. *)
Fixpoint reorder_spec {A} (axes : list nat) (swapper : list Z) (frame : ndarray A)
  : result (ndarray A) :=
  match axes with
  | [] => Ok frame
  | i :: axes' =>
      k ← argmin (drop i swapper);
      let idx := (k + i)%nat in
      if (idx =? i)%nat then reorder_spec axes' swapper frame
      else
        let swapper' := swap_list i idx swapper in
        frame' ← swapaxes frame i idx;
        reorder_spec axes' swapper' frame'
  end.

Definition get_frame_spec (dataset : ndarray dtype) (dim_order : string)
    (t : Z) : result (ndarray float) :=
  let rank := length (shape dataset) in
  let slices := replicate rank slice_None in
  let swapper := replicate rank (@None Z) in
  swapper ← set_if_present swapper (find dim_order "z") 0;
  swapper ← py_setitem swapper (find dim_order "y") (Some 1);
  swapper ← py_setitem swapper (find dim_order "x") (Some 2);
  swapper ← set_if_present swapper (find dim_order "c") 3;
  let swapper := omap (fun x => x) swapper in
  slices ← py_setitem slices (find dim_order "t") (SInt t);
  frame ← nd_getitem dataset slices;
  frame ← reorder_spec (seq 0 (ndim frame)) swapper frame;
  Ok (astype to_float frame).

(** ** Dynamic dispatch of [__len__] and [_get_frame] *)

Fixpoint len (s : Seq) : result nat :=
  match s with
  | Sequence_HDF5 dataset dim_order =>
      py_index (shape dataset) (find dim_order "t")
  | MotionCorrectedSequence base _ _ => len base
  | IndexedSequence base _ indices _ =>
      n ← len base;
      i0 ← py_index indices 0;
      sel ← list_getitem (range n) i0;
      match sel with
      | One _ => Raise TypeError
      | Many l => Ok (length l)
      end
  end.

(** [self._times[t]] *)
Definition times_at (times : item Z) (t : Z) : result Z :=
  match times with
  | One _ => Raise TypeError
  | Many l => py_index l t
  end.

Fixpoint _get_frame (s : Seq) (t : Z) : result (ndarray float) :=
  match s with
  | Sequence_HDF5 dataset dim_order =>
      _Sequence_HDF5_get_frame dataset dim_order t
  | MotionCorrectedSequence base displacements frame_shape =>
      frame ← _get_frame base t;
      d ← nd_getitem displacements [SInt t];
      Ok (_align_frame (astype (fun x => x) frame) d frame_shape)
  | IndexedSequence base _ indices times =>
      t' ← times_at times t;
      frame ← _get_frame base t';
      nd_getitem frame (tail indices)
  end.

(** ** [_IndexedSequence.__init__] *)

(** [slice(i, i+1) if isinstance(i, int) else i] *)
Definition reformat (i : selector) : selector :=
  match i with
  | SInt i => SSlice (Some i) (Some (i + 1)) None
  | _ => i
  end.

Definition _IndexedSequence_init (base : Seq) (indices : pyindex) : result Seq :=
  base_len ← len base;
  let indices := as_tuple indices in
  let indices := map reformat indices in
  i0 ← py_index indices 0;
  times ← list_getitem (range base_len) i0;
  Ok (IndexedSequence base base_len indices times).

(** ** [__getitem__] *)

(** [Sequence.__getitem__] wraps; [_MotionCorrectedSequence.__getitem__]
    calls itself on the sequence it has just built, so the embedding takes
    a bound on the depth of nested calls ([None]: bound reached). *)
Fixpoint getitem (fuel : nat) (s : Seq) (indices : pyindex) : option (result Seq) :=
  match fuel with
  | O => None
  | S fuel' =>
    match s with
    | MotionCorrectedSequence base displacements frame_shape =>
      match py_len indices with
      | Raise e => Some (Raise e)
      | Ok n =>
        if (5 <? n)%nat then Some (Raise ValueError) else
        let indices := as_tuple indices in
        match py_index indices 0 with
        | Raise e => Some (Raise e)
        | Ok times =>
          if negb (is_full times) then
            let new_indices := SNone :: tail indices in
            match getitem fuel' base (Bare times) with
            | None => None
            | Some (Raise e) => Some (Raise e)
            | Some (Ok base') =>
              match nd_getitem displacements [times] with
              | Raise e => Some (Raise e)
              | Ok displacements' =>
                getitem fuel'
                  (MotionCorrectedSequence base' displacements' frame_shape)
                  (Tuple new_indices)
              end
            end
          else if (length indices =? 5)%nat then
            match py_index indices 5 with
            | Raise e => Some (Raise e)
            | Ok chans =>
              match getitem fuel' base
                      (Tuple [slice_None; slice_None; slice_None; slice_None; chans]) with
              | None => None
              | Some (Raise e) => Some (Raise e)
              | Some (Ok base') =>
                match nd_getitem displacements
                        [slice_None; slice_None; slice_None; chans] with
                | Raise e => Some (Raise e)
                | Ok displacements' =>
                  getitem fuel'
                    (MotionCorrectedSequence base' displacements' frame_shape)
                    (Tuple (take 5 indices))
                end
              end
            end
          else Some (_IndexedSequence_init s (Tuple indices))
        end
      end
    | _ => Some (_IndexedSequence_init s indices)
    end
  end.

(** ** Iteration *)

(** [for t in ts: yield f(t)] *)
Fixpoint yield_each {A} (f : Z -> result A) (ts : list Z) : stream A :=
  match ts with
  | [] => ([], None)
  | t :: ts' =>
      match f t with
      | Raise e => ([], Some e)
      | Ok x => let '(xs, st) := yield_each f ts' in (x :: xs, st)
      end
  end.

(** [_IndexableSequence.__iter__] *)
Definition _IndexableSequence_iter (s : Seq) : stream (ndarray float) :=
  match len s with
  | Raise e => ([], Some e)
  | Ok n => yield_each (_get_frame s) (range n)
  end.


(** Rows of an array, as iterating over it yields them. *)
Definition nd_rows {A} (a : ndarray A) : result (list (ndarray A)) :=
  match shape a with
  | [] => Raise TypeError
  | n :: shp => Ok (map (fun i => NDArray shp (fun idx => at_ a (i :: idx))) (seq 0 n))
  end.

(** [itertools.izip] of a stream with a list: the stream is advanced first. *)
Fixpoint izip {A B} (xs : list A) (st : option exn) (ys : list B) : stream (A * B) :=
  match xs with
  | [] => ([], st)
  | x :: xs' =>
      match ys with
      | [] => ([], None)
      | y :: ys' => let '(zs, st') := izip xs' st ys' in ((x, y) :: zs, st')
      end
  end.

(** The sequential path of [_IndexedSequence.__iter__]: walk the frames of
    the base, [idx] pointing into [self._times]. *)
Fixpoint sequential_walk (times : item Z) (sels : list selector) (idx t : Z)
    (frames : list (ndarray float)) (st : option exn) : stream (ndarray float) :=
  match frames with
  | [] => ([], st)
  | frame :: frames' =>
      match times_at times idx with
      | Raise IndexError => ([], None)
      | Raise e => ([], Some e)
      | Ok ti =>
          if t =? ti then
            match nd_getitem frame sels with
            | Raise e => ([], Some e)
            | Ok f =>
                let '(fs, st') := sequential_walk times sels (idx + 1) (t + 1) frames' st in
                (f :: fs, st')
            end
          else sequential_walk times sels idx (t + 1) frames' st
      end
  end.

Definition no_get_frame : string := "'super' object has no attribute '_get_frame'".

(** The random-access path of [_IndexedSequence.__iter__]. *)
Definition direct_walk (base : Seq) (indices : list selector) (times : item Z)
  : stream (ndarray float) :=
  match times with
  | One _ => ([], Some TypeError)
  | Many ts =>
      yield_each (fun t => frame ← _get_frame base t; nd_getitem frame (tail indices)) ts
  end.

(** [__iter__], dispatched on the class. *)
Fixpoint iter (s : Seq) : stream (ndarray float) :=
  match s with
  | Sequence_HDF5 _ _ => _IndexableSequence_iter s
  | MotionCorrectedSequence base displacements frame_shape =>
      match nd_rows displacements with
      | Raise e => ([], Some e)
      | Ok rows =>
          let '(pairs, st) := izip (fst (iter base)) (snd (iter base)) rows in
          (map (fun '(frame, d) => _align_frame frame d frame_shape) pairs, st)
      end
  | IndexedSequence base _ indices times =>
      match direct_walk base indices times with
      | (fs, Some (AttributeError msg)) =>
          if String.eqb msg no_get_frame then
            let '(fs', st) :=
              sequential_walk times (tail indices) 0 0 (fst (iter base)) (snd (iter base)) in
            (fs ++ fs', st)
          else (fs, Some (AttributeError msg))
      | r => r
      end
  end.

(** ** Cursors, one step at a time

    A generator created by [_IndexableSequence.__iter__] has not started,
    is suspended in the loop at position [t] of [xrange(n)], or has
    finished. *)
Inductive cursor :=
| Fresh
| Suspended (n t : nat)
| Finished.

Inductive step (A : Type) :=
| Yielded (a : A)
| Stopped
| Raised (e : exn).
Arguments Yielded {A} a.
Arguments Stopped {A}.
Arguments Raised {A} e.

Definition loop_next (s : Seq) (n t : nat) : step (ndarray float) * cursor :=
  if (t <? n)%nat then
    match _get_frame s (Z.of_nat t) with
    | Ok frame => (Yielded frame, Suspended n (S t))
    | Raise e => (Raised e, Finished)
    end
  else (Stopped, Finished).

(** [next(c)] on a cursor of the sequence [s].  The sequence is only read. *)
Definition cursor_next (s : Seq) (c : cursor) : step (ndarray float) * cursor :=
  match c with
  | Fresh =>
      match len s with
      | Ok n => loop_next s n 0
      | Raise e => (Raised e, Finished)
      end
  | Suspended n t => loop_next s n t
  | Finished => (Stopped, Finished)
  end.

(** Two cursors of one sequence advanced in an arbitrary interleaving
    ([true]: the first, [false]: the second); what each has yielded, and
    the exception if one ended it. *)
Record two_cursors := TwoCursors {
  cur1 : cursor; out1 : stream (ndarray float);
  cur2 : cursor; out2 : stream (ndarray float)
}.

Definition record_step (out : stream (ndarray float)) (r : step (ndarray float))
  : stream (ndarray float) :=
  match r with
  | Yielded f => (fst out ++ [f], snd out)
  | Stopped => out
  | Raised e => (fst out, Some e)
  end.

Fixpoint interleave (s : Seq) (schedule : list bool) (w : two_cursors) : two_cursors :=
  match schedule with
  | [] => w
  | true :: schedule' =>
      let '(r, c) := cursor_next s (cur1 w) in
      interleave s schedule' (TwoCursors c (record_step (out1 w) r) (cur2 w) (out2 w))
  | false :: schedule' =>
      let '(r, c) := cursor_next s (cur2 w) in
      interleave s schedule' (TwoCursors (cur1 w) (out1 w) c (record_step (out2 w) r))
  end.

Definition two_fresh : two_cursors := TwoCursors Fresh ([], None) Fresh ([], None).

(** How often a schedule advances the first ([true]) or the second
    ([false]) cursor, and how many calls of [next] exhaust a cursor. *)
Definition advances (b : bool) (schedule : list bool) : nat :=
  length (List.filter (Bool.eqb b) schedule).

Definition steps_needed (s : Seq) : nat :=
  match len s with
  | Ok n => S n
  | Raise _ => 1%nat
  end.

(** What holds of a cursor that has been advanced [k] times and has
    yielded [out] so far. *)
Inductive cursor_inv (s : Seq) : nat -> cursor -> stream (ndarray float) -> Prop :=
| inv_fresh : cursor_inv s 0 Fresh ([], None)
| inv_suspended n t fs :
    len s = Ok n -> (t <= n)%nat -> (0 < t)%nat ->
    yield_each (_get_frame s) (range t) = (fs, None) ->
    cursor_inv s t (Suspended n t) (fs, None)
| inv_finished k out :
    (0 < k)%nat -> out = _IndexableSequence_iter s ->
    cursor_inv s k Finished out.

End Classes.

(* ===================================================================== *)
(** * The gap filler                                                      *)
(* ===================================================================== *)

Module GapFiller.

(** binary64 arithmetic *)
Definition prec : Z := 53.
Definition emax : Z := 1024.
Definition fadd : float -> float -> float := SFadd prec emax.
Definition fmul : float -> float -> float := SFmul prec emax.
Definition nan : float := S754_nan.
Definition fzero : float := S754_zero false.
Definition fone : float := SFone prec emax.
Definition valid (x : float) : bool := valid_binary prec emax x.

(** [np.isnan], [np.isfinite] *)
Definition isnan (x : float) : bool :=
  match x with S754_nan => true | _ => false end.
Definition isfinite (x : float) : bool :=
  match x with S754_zero _ | S754_finite _ _ _ => true | _ => false end.

(** [np.nan_to_num]: NaN becomes zero, an infinity the largest finite
    number of its sign. *)
Definition nan_to_num (x : float) : float :=
  match x with
  | S754_nan => fzero
  | S754_infinity s =>
      if s then SFopp (SFmax_float prec emax) else SFmax_float prec emax
  | _ => x
  end.

(** A boolean array entering float arithmetic: [True] is 1.0, [False] 0.0. *)
Definition of_bool (b : bool) : float := if b then fone else fzero.

(** One channel is its pixel buffer in row-major order; a frame is the list
    of its channels. *)
Abbreviation channel := (list float) (only parsing).
Abbreviation gframe := (list (list float)) (only parsing).

(** [fobs_chan[np.isnan(fobs_chan)] = frame_chan[np.isnan(fobs_chan)]]:
    a boolean mask must have the shape of the array it indexes. *)
Definition fill_first_obs (frame_chan fobs_chan : channel) : result channel :=
  if (length frame_chan =? length fobs_chan)%nat
  then Ok (zip_with (fun fo fr => if isnan fo then fr else fo) fobs_chan frame_chan)
  else Raise IndexError.

(** [mr_chan[np.isfinite(fr_chan)] = fr_chan[np.isfinite(fr_chan)]] *)
Definition fill_most_recent (fr_chan mr_chan : channel) : result channel :=
  if (length fr_chan =? length mr_chan)%nat
  then Ok (zip_with (fun mr fr => if isfinite fr then fr else mr) mr_chan fr_chan)
  else Raise IndexError.

(** [for a, b in zip(frame, acc): <update b in place from a>]: the channels
    of [acc] that [zip] reaches are updated, the others are left alone. *)
Fixpoint update_channels (upd : channel -> channel -> result channel)
    (frame acc : gframe) : result gframe :=
  match frame, acc with
  | fc :: frame', ac :: acc' =>
      ac' ← upd fc ac;
      rest ← update_channels upd frame' acc';
      Ok (ac' :: rest)
  | _, _ => Ok acc
  end.

(** [all(np.all(np.isfinite(chan)) for chan in first_obs)] *)
Definition all_finite (f : gframe) : bool := forallb (forallb isfinite) f.

(** The first loop: [frames] is what is left of [frame_iter1], [st] how it
    ends. *)
Fixpoint pass1 (first_obs : gframe) (frames : list gframe) (st : option exn)
  : result gframe :=
  match frames with
  | [] => match st with None => Ok first_obs | Some e => Raise e end
  | frame :: frames' =>
      first_obs' ← update_channels fill_first_obs frame first_obs;
      if all_finite first_obs' then Ok first_obs'
      else pass1 first_obs' frames' st
  end.

(** [np.nan_to_num(mr_ch) + np.isnan(mr_ch) * fo_ch], elementwise *)
Definition blend (mr fo : float) : float :=
  fadd (nan_to_num mr) (fmul (of_bool (isnan mr)) fo).

Definition emit (most_recent first_obs : gframe) : gframe :=
  zip_with (zip_with blend) most_recent first_obs.

(** The second loop. *)
Fixpoint pass2 (first_obs most_recent : gframe) (frames : list gframe)
    (st : option exn) : stream gframe :=
  match frames with
  | [] => ([], st)
  | frame :: frames' =>
      match update_channels fill_most_recent frame most_recent with
      | Raise e => ([], Some e)
      | Ok most_recent' =>
          let '(out, st') := pass2 first_obs most_recent' frames' st in
          (emit most_recent' first_obs :: out, st')
      end
  end.

(** [_fill_gaps(frame_iter1, frame_iter2)].  [first_obs] is the object the
    first cursor yielded and is written in place; what the second cursor
    yields is taken as it is when the second loop reads it, so a cursor
    handing out that same object is covered by giving the written frame as
    the first frame of [frame_iter2]. *)
Definition _fill_gaps (frame_iter1 frame_iter2 : stream gframe) : stream gframe :=
  match fst frame_iter1 with
  | [] => ([], snd frame_iter1)
  | first_obs :: frames1 =>
      match pass1 first_obs frames1 (snd frame_iter1) with
      | Raise e => ([], Some e)
      | Ok first_obs =>
          let most_recent := map (map (fun x => fmul x nan)) first_obs in
          pass2 first_obs most_recent (fst frame_iter2) (snd frame_iter2)
      end
  end.

(** *** The fill rule in the words of the specification *)

(** The most recent finite value among the observations so far. *)
Definition most_recent_finite (obs : list float) : option float :=
  last (List.filter isfinite obs).

(** "[most_recent] where finite; otherwise [first_obs] where finite;
    otherwise zero". *)
Definition spec_fill (obs : list float) (baseline : float) : float :=
  match most_recent_finite obs with
  | Some v => v
  | None => if isfinite baseline then baseline else fzero
  end.

(** The baseline of the first loop at one pixel: the first observation
    that is not NaN, NaN when there is none. *)
Fixpoint first_non_nan (obs : list float) : float :=
  match obs with
  | [] => nan
  | x :: obs' => if isnan x then first_non_nan obs' else x
  end.

(** The running value of the second loop at one pixel. *)
Definition latest (m : float) (obs : list float) : float :=
  fold_left (fun mr fr => if isfinite fr then fr else mr) obs m.

(** What the code computes instead in the last case. *)
Definition code_fill (obs : list float) (baseline : float) : float :=
  match most_recent_finite obs with
  | Some v => v
  | None => if isfinite baseline then baseline else nan
  end.

(** Pixel [p] of channel [c] of a frame, and its history over frames. *)
Definition pixel (f : gframe) (c p : nat) : option float :=
  f !! c ≫= fun ch => ch !! p.
Definition history (frames : list gframe) (c p : nat) : list float :=
  omap (fun f => pixel f c p) frames.

(** Equal as numbers: identical, or zeros of either sign. *)
Definition is_zero (x : float) : bool :=
  match x with S754_zero _ => true | _ => false end.
Definition same_number (x y : float) : Prop :=
  x = y \/ (is_zero x = true /\ is_zero y = true).

(** All frames of a stream have the shape of [shp] (pixels per channel). *)
Definition frame_shape (f : gframe) : list nat := map length f.
Definition uniform (shp : list nat) (frames : list gframe) : Prop :=
  Forall (fun f => frame_shape f = shp) frames.

Definition every_pixel (P : float -> bool) (frames : list gframe) : bool :=
  forallb (forallb (forallb P)) frames.

(** Classes of pixel values. *)
Definition finite_or_nan (x : float) : bool := isnan x || isfinite x.
Definition not_negative_zero (x : float) : bool :=
  match x with S754_zero true => false | _ => true end.

End GapFiller.

(* ===================================================================== *)
(** * The path resolver                                                   *)
(* ===================================================================== *)

(** What [os.path] provides: [join], the composition
    [normcase(abspath(normpath(.)))], [isfile] and [samefile]. *)
Class FileSystem := {
  join : string -> string -> string;
  canonical : string -> string;
  isfile : string -> bool;
  samefile : string -> string -> bool
}.

Section Paths.
Context `{FileSystem}.

Definition ambiguous : string :=
  "Files have been moved. The path cannot be unambiguously resolved.".

(** [l.pop()] *)
Definition list_pop {A} (l : list A) : result (A * list A) :=
  match last l with
  | Some x => Ok (x, removelast l)
  | None => Raise IndexError
  end.

(** The two [try] blocks: the set of candidates and the dictionary without
    the two stored keys. *)
Definition candidates (d : gmap string string) (savedir : string)
  : gset string * gmap string string :=
  let paths : gset string := ∅ in
  let '(paths, d) :=
    match d !! "_relpath" with
    | None => (paths, d)
    | Some relp => (paths ∪ {[ canonical (join savedir relp) ]}, delete "_relpath" d)
    end in
  match d !! "_abspath" with
  | None => (paths, d)
  | Some absp => (paths ∪ {[ canonical absp ]}, delete "_abspath" d)
  end.

Definition _resolve_paths (d : gmap string string) (savedir : string)
  : result (gmap string string) :=
  let '(paths, d) := candidates d savedir in
  if (size paths =? 0)%nat then Ok d else
  let paths := List.filter isfile (elements paths) in
  paths ← (if negb (length paths =? 1)%nat then
             '(testfile, paths) ← list_pop paths;
             if negb (forallb (samefile testfile) paths)
             then Raise (Exception_ ambiguous)
             else Ok paths
           else Ok paths);
  '(p, _) ← list_pop paths;
  Ok (<["path" := p]> d).

End Paths.

(* ===================================================================== *)
(** * Concrete data used by the examples                                  *)
(* ===================================================================== *)

Module Demo.

(** Integer datasets, converted to binary64 by rounding; alignment that
    leaves the frame as it is. *)
Definition z2f (z : Z) : float := binary_normalize 53 1024 z 0 false.

#[export] Instance externals : Externals :=
  {| dtype := Z; to_float := z2f; _align_frame := fun frame _ _ => frame |}.

(** A dataset of the given shape whose element at a multi-index spells the
    index in decimal digits. *)
Definition digits (idx : list nat) : Z :=
  fold_left (fun acc i => 10 * acc + Z.of_nat i) idx 0.
Definition dataset (shp : list nat) : ndarray Z := NDArray shp digits.

(** One time point, two columns, three rows, stored as (t, x, y). *)
Definition txy : Seq := Sequence_HDF5 (dataset [1; 2; 3]%nat) "txy".

(** Its frame at time 0 with the axes as stored, (x, y), and with the axes
    in canonical order, (row, column) = (y, x). *)
Definition txy_as_stored : ndarray float :=
  NDArray [2; 3]%nat
    (fun idx => match idx with [x; y] => z2f (digits [0; x; y]%nat) | _ => S754_nan end).
Definition txy_canonical : ndarray float :=
  NDArray [3; 2]%nat
    (fun idx => match idx with [y; x] => z2f (digits [0; x; y]%nat) | _ => S754_nan end).

(** Twenty frames of two rows and three columns, ten frames likewise. *)
Definition base20 : Seq := Sequence_HDF5 (dataset [20; 2; 3]%nat) "tyx".
Definition base10 : Seq := Sequence_HDF5 (dataset [10; 2; 3]%nat) "tyx".

(** Displacements of [base20]: one row of two offsets per (frame, row). *)
Definition disp20 : ndarray Z := dataset [40; 2]%nat.
Definition mcs20 : Seq := MotionCorrectedSequence base20 disp20 [1; 2; 3]%nat.

(** [5:10] and [2:5] *)
Definition s5_10 : selector := SSlice (Some 5) (Some 10) None.
Definition s2_5 : selector := SSlice (Some 2) (Some 5) None.

(** A file system with one file reachable under two names and a second,
    different file. *)
#[export] Instance files : FileSystem :=
  {| join := fun dir p => (dir ++ "/" ++ p)%string;
     canonical := fun p => p;
     isfile := fun p => String.eqb p "/proj/a.h5" || String.eqb p "/link/a.h5"
                        || String.eqb p "/old/a.h5";
     samefile := fun p q =>
       let inode := fun x : string => if String.eqb x "/old/a.h5" then 2%nat else 1%nat in
       (inode p =? inode q)%nat |}.

(** Pixel values, and three streams of frames with one channel each:
    one whose first pixel is never observed, one all finite that holds a
    negative zero, one all finite without. *)
Definition one : float := GapFiller.fone.
Definition seven : float := z2f 7.
Definition gappy : list (list (list float)) :=
  [[[S754_nan; one]]; [[S754_nan; S754_nan]]; [[S754_nan; seven]]].
Definition signed_zero : list (list (list float)) :=
  [[[one]]; [[S754_zero true]]].
Definition steady : list (list (list float)) :=
  [[[one; seven]]; [[seven; one]]].
Definition with_infinity : list (list (list float)) :=
  [[[S754_infinity false]]; [[one]]].

(** A stored form carrying both paths, and what it resolves to. *)
Definition stored : gmap string string :=
  <["_relpath" := "a.h5"%string]> (<["_abspath" := "/proj/a.h5"%string]> ∅).
Definition resolved : gmap string string :=
  <["path" := "/proj/a.h5"%string]> ∅.

End Demo.

(* ===================================================================== *)
(** * Notions used to state further properties                            *)
(* ===================================================================== *)

(** The list [swapper] of [_Sequence_HDF5._get_frame] after the [filter]:
    for each axis of the dataset other than time, in stored order, its
    canonical position. *)
Definition declared_positions (rank : nat) (dim_order : string) : result (list Z) :=
  let swapper := replicate rank (@None Z) in
  swapper ← set_if_present swapper (find dim_order "z") 0;
  swapper ← py_setitem swapper (find dim_order "y") (Some 1);
  swapper ← py_setitem swapper (find dim_order "x") (Some 2);
  match set_if_present swapper (find dim_order "c") 3 with
  | Ok swapper => Ok (omap (fun x => x) swapper)
  | Raise e => Raise e
  end.

(** A time selector that walks forward: an integer, or a slice whose step
    is positive or left out. *)
Definition forward (sel : selector) : bool :=
  match sel with
  | SNone => false
  | SInt _ => true
  | SSlice _ _ step => 0 <? default 1 step
  end.



Module Samples.

(** Frames 2, 3, 4 of [Demo.base20], and the slice [1:] of that slice. *)
Definition inner : Seq :=
  IndexedSequence Demo.base20 20 [Demo.s2_5] (Many [2; 3; 4]).
Definition from_1 : selector := SSlice (Some 1) None None.
Definition outer : Seq := IndexedSequence inner 3 [from_1] (Many [1; 2]).

(** The first column of every frame of [Demo.base10]. *)
Definition first_column : Seq :=
  IndexedSequence Demo.base10 10 [slice_None; slice_None; SSlice (Some 0) (Some 1) None] (Many (range 10)).

(** Frame 3 of [Demo.base20], as [__init__] stores the index [(3, :)]. *)
Definition frame_3 : Seq :=
  IndexedSequence Demo.base20 20
    [SSlice (Some 3) (Some (3 + 1)) None; slice_None] (Many [3]).

(** Three frames, as a base without [_get_frame] would yield them. *)
Definition three_frames : list (ndarray float) :=
  [Demo.txy_as_stored; Demo.txy_canonical; Demo.txy_as_stored].

(** Four time points of one plane, two rows, three columns, two channels;
    and a stack stored without a time axis in its dimension order. *)
Definition tzyxc : ndarray Z := Demo.dataset [4; 1; 2; 3; 2]%nat.
Definition zyx : ndarray Z := Demo.dataset [2; 3; 5]%nat.

(** Three displacement rows for the one frame of [Demo.txy]. *)
Definition disp3 : ndarray Z := Demo.dataset [3; 2]%nat.

(** A stream in which each of the two pixels has a gap, and each is
    observed once. *)
Definition patchy : list (list (list float)) :=
  [[[S754_nan; Demo.one]]; [[Demo.seven; S754_nan]]].

(** A stored form whose absolute path no longer exists. *)
Definition moved : gmap string string :=
  <["_relpath" := "a.h5"%string]> (<["_abspath" := "/gone/a.h5"%string]> ∅).

End Samples.

(* ===================================================================== *)
(** * Facts about the Python model                                        *)
(* ===================================================================== *)

Lemma py_index_head {A} (x : A) (l : list A) : py_index (x :: l) 0 = Ok x.
Proof.
  unfold py_index. cbn [length].
  replace (0 <? 0) with false by reflexivity.
  replace ((0 <=? 0) && (0 <? Z.of_nat (S (length l)))) with true; [reflexivity|].
  symmetry. apply andb_true_iff. split; [reflexivity | apply Z.ltb_lt; lia].
Qed.

Lemma py_index_length_IndexError {A} (l : list A) :
  py_index l (Z.of_nat (length l)) = Raise IndexError.
Proof.
  unfold py_index.
  destruct (Z.of_nat (length l) <? 0) eqn:E; [apply Z.ltb_lt in E; lia|].
  rewrite Z.ltb_irrefl, andb_false_r. reflexivity.
Qed.

(** A slice with the default step never fails on a list. *)
Lemma list_getitem_slice_Many {A} (l : list A) start stop :
  exists ts, list_getitem l (SSlice start stop None) = Ok (Many ts).
Proof.
  unfold list_getitem, slice_indices. cbn. eexists. reflexivity.
Qed.

(** Indexing the first axis of an array that has one with a unit-step
    slice succeeds. *)
Lemma nd_getitem_slice_first {A} (a : ndarray A) n shp start stop :
  shape a = n :: shp ->
  exists d, nd_getitem a [SSlice start stop None] = Ok d.
Proof.
  intros Hs. unfold nd_getitem. rewrite Hs. cbn. eexists. reflexivity.
Qed.

(** [a[()]] is [a]. *)
Lemma nd_getitem_nil {A} (a : ndarray A) : nd_getitem a [] = Ok a.
Proof. destruct a. reflexivity. Qed.

(** [a[:, ..., :]] with no more colons than axes is [a]. *)
Lemma slice_indices_full (n : nat) : slice_indices n None None None = Ok (0, 1, n).
Proof.
  unfold slice_indices, slice_clamp, slice_length. cbn [default].
  change (1 =? 0) with false. change (1 <? 0) with false. cbv iota.
  destruct (0 <? Z.of_nat n) eqn:E.
  - do 3 f_equal. apply Z.ltb_lt in E. rewrite Z.div_1_r. lia.
  - do 3 f_equal. apply Z.ltb_ge in E. lia.
Qed.

Lemma index_plan_full (n : nat) : forall shp,
  (n <= length shp)%nat ->
  exists tr, index_plan (replicate n slice_None) shp = Ok (shp, tr)
    /\ forall idx, (n <= length idx)%nat -> tr idx = idx.
Proof.
  induction n as [|n IH]; intros shp Hn.
  - exists (fun idx => idx). split; reflexivity.
  - destruct shp as [|d shp]; [cbn in Hn; lia|]. cbn in Hn.
    destruct (IH shp) as (tr & Hplan & Htr); [lia|].
    cbn [replicate]. unfold slice_None at 1. cbn [index_plan].
    rewrite slice_indices_full. cbn [mbind result_bind]. rewrite Hplan.
    cbn [mbind result_bind]. eexists. split; [reflexivity|].
    intros [|i idx] Hidx; cbn in Hidx; [lia|]. cbn [hd tail].
    rewrite Htr by lia. f_equal. lia.
Qed.

Lemma nd_getitem_full {A} (a : ndarray A) (n : nat) :
  (n <= ndim a)%nat ->
  exists b, nd_getitem a (replicate n slice_None) = Ok b /\ nd_eq b a.
Proof.
  intros Hn. destruct (index_plan_full n (shape a) Hn) as (tr & Hplan & Htr).
  unfold nd_getitem. rewrite Hplan. cbn [mbind result_bind].
  eexists. split; [reflexivity|]. split; [reflexivity|].
  intros idx Hb. cbn [at_ shape] in *. rewrite Htr; [reflexivity|].
  apply Forall2_length in Hb. unfold ndim in Hn. lia.
Qed.

(** [slice(i, i+1)] selects exactly position [i] of an axis when [i] is a
    position of the axis counted from the front; for [i = -1] it is
    [slice(-1, 0)], which selects nothing.  The axis is kept either way. *)
Lemma slice_indices_single (n : nat) (i : Z) :
  0 <= i < Z.of_nat n ->
  slice_indices n (Some i) (Some (i + 1)) None = Ok (i, 1, 1%nat).
Proof.
  intros Hi. unfold slice_indices, slice_clamp, slice_length. cbn [default].
  change (1 =? 0) with false. change (1 <? 0) with false. cbv iota.
  destruct (i <? 0) eqn:E1; [apply Z.ltb_lt in E1; lia|].
  destruct (Z.of_nat n <=? i) eqn:E2; [apply Z.leb_le in E2; lia|].
  destruct (i + 1 <? 0) eqn:E3; [apply Z.ltb_lt in E3; lia|].
  assert (He : (if Z.of_nat n <=? i + 1 then Z.of_nat n else i + 1) = i + 1).
  { destruct (Z.of_nat n <=? i + 1) eqn:E4; [apply Z.leb_le in E4; lia | reflexivity]. }
  rewrite He.
  destruct (i <? i + 1) eqn:E5; [|apply Z.ltb_ge in E5; lia].
  do 3 f_equal. replace (i + 1 - i - 1) with 0 by lia. reflexivity.
Qed.

Lemma slice_indices_minus_one (n : nat) :
  exists b, slice_indices n (Some (-1)) (Some (-1 + 1)) None = Ok (b, 1, 0%nat).
Proof.
  unfold slice_indices, slice_clamp, slice_length. cbn [default].
  change (1 =? 0) with false. change (1 <? 0) with false. cbv iota.
  change (-1 + 1) with 0. change (0 <? 0) with false. change (-1 <? 0) with true.
  cbv iota. eexists. do 3 f_equal.
  destruct (Z.of_nat n <=? 0) eqn:E1.
  - apply Z.leb_le in E1. assert (n = 0%nat) as -> by lia. reflexivity.
  - apply Z.leb_gt in E1.
    destruct (-1 + Z.of_nat n <? 0) eqn:E2; [apply Z.ltb_lt in E2; lia|].
    destruct (-1 + Z.of_nat n <? 0) eqn:E3; [discriminate|].
    apply Z.ltb_ge in E3. reflexivity.
Qed.

(* ===================================================================== *)
(** * Slicing a motion-corrected sequence                                 *)
(* ===================================================================== *)

Section GetitemFacts.
Context `{Externals}.

(** A tuple whose time selector is [None] cannot be given to
    [_IndexedSequence]: [range(n)[None]] is a type error. *)
Lemma init_SNone_raises (s : Seq) (rest : list selector) :
  exists e, _IndexedSequence_init s (Tuple (SNone :: rest)) = Raise e.
Proof.
  unfold _IndexedSequence_init. destruct (len s) as [n|e]; cbn.
  - rewrite py_index_head. cbn. eexists. reflexivity.
  - eexists. reflexivity.
Qed.

Lemma init_SNone_TypeError (s : Seq) (n : nat) (rest : list selector) :
  len s = Ok n -> _IndexedSequence_init s (Tuple (SNone :: rest)) = Raise TypeError.
Proof.
  intros Hn. unfold _IndexedSequence_init. rewrite Hn. cbn.
  rewrite py_index_head. reflexivity.
Qed.

(** Once the time selector has been replaced by [None], the second call of
    [__getitem__] raises whatever the sequence is. *)
Lemma getitem_SNone_raises fuel base disp fshape rest r :
  getitem fuel (MotionCorrectedSequence base disp fshape) (Tuple (SNone :: rest))
    <> Some (Ok r).
Proof.
  destruct fuel as [|fuel]; [discriminate|]. cbn [getitem py_len as_tuple].
  destruct (5 <? length (SNone :: rest))%nat; [discriminate|].
  rewrite py_index_head. cbn [is_full negb].
  destruct (length (SNone :: rest) =? 5)%nat eqn:E.
  - apply Nat.eqb_eq in E.
    replace 5 with (Z.of_nat (length (SNone :: rest))) by (rewrite E; reflexivity).
    rewrite py_index_length_IndexError. discriminate.
  - destruct (init_SNone_raises (MotionCorrectedSequence base disp fshape) rest)
      as [e ->]. discriminate.
Qed.

(** The time pushdown never returns a sequence. *)
Lemma time_pushdown_raises fuel base disp fshape times rest r :
  is_full times = false ->
  getitem fuel (MotionCorrectedSequence base disp fshape) (Tuple (times :: rest))
    <> Some (Ok r).
Proof.
  intros Hfull. destruct fuel as [|fuel]; [discriminate|].
  cbn [getitem py_len as_tuple].
  destruct (5 <? length (times :: rest))%nat; [discriminate|].
  rewrite py_index_head, Hfull. cbn [negb tail].
  destruct (getitem fuel base (Bare times)) as [[base'|e]|]; try discriminate.
  destruct (nd_getitem disp [times]) as [disp'|e]; try discriminate.
  apply getitem_SNone_raises.
Qed.

Lemma len_IndexedSequence base bl sel rest tm n ts :
  len base = Ok n ->
  list_getitem (range n) sel = Ok (Many ts) ->
  len (IndexedSequence base bl (sel :: rest) tm) = Ok (length ts).
Proof.
  intros Hn Hts. cbn [len]. rewrite Hn. cbn [mbind result_bind].
  rewrite py_index_head. cbn [mbind result_bind]. rewrite Hts. reflexivity.
Qed.

(** A bare selector is either refused (motion-corrected base) or handed to
    [_IndexedSequence]. *)
Lemma getitem_Bare fuel base sel :
  getitem (S fuel) base (Bare sel) = Some (Raise TypeError) \/
  getitem (S fuel) base (Bare sel) = Some (_IndexedSequence_init base (Bare sel)).
Proof. destruct base; [right | left | right]; reflexivity. Qed.

(** With a base of twenty frames the exception is the [TypeError] of
    [range(5)[None]], or already that of [len(indices)] in the base. *)
Lemma time_slice_TypeError fuel base disp fshape n shp start stop :
  len base = Ok 20%nat ->
  shape disp = n :: shp ->
  getitem (S (S fuel)) (MotionCorrectedSequence base disp fshape)
          (Tuple [SSlice (Some start) (Some stop) None])
    = Some (Raise TypeError).
Proof.
  intros Hlen Hshape.
  destruct (list_getitem_slice_Many (range 20) (Some start) (Some stop)) as [ts Hts].
  destruct (nd_getitem_slice_first disp n shp (Some start) (Some stop) Hshape)
    as [d' Hd'].
  remember (S fuel) as fuel' eqn:Hfuel.
  cbn [getitem py_len as_tuple length]. cbn [Nat.ltb Nat.leb].
  rewrite py_index_head. cbn [is_full negb tail].
  subst fuel'.
  destruct (getitem_Bare fuel base (SSlice (Some start) (Some stop) None)) as [-> | ->];
    [reflexivity|].
  unfold _IndexedSequence_init at 1. rewrite Hlen.
  cbn [mbind result_bind as_tuple map reformat].
  rewrite py_index_head. cbn [mbind result_bind]. rewrite Hts.
  cbn [mbind result_bind]. rewrite Hd'.
  cbn [getitem py_len as_tuple length Nat.ltb Nat.leb].
  rewrite py_index_head. cbn [is_full negb length Nat.eqb].
  erewrite init_SNone_TypeError; [reflexivity|].
  change (len (MotionCorrectedSequence ?b _ _)) with (len b).
  eapply len_IndexedSequence; eassumption.
Qed.

(** Two nested calls are all [__getitem__] ever makes: with a bound of two
    or more the embedding always returns. *)
Lemma getitem_SNone_total fuel base disp fshape rest :
  exists r, getitem (S fuel) (MotionCorrectedSequence base disp fshape)
              (Tuple (SNone :: rest)) = Some r.
Proof.
  cbn [getitem py_len as_tuple].
  destruct (5 <? length (SNone :: rest))%nat; [eexists; reflexivity|].
  rewrite py_index_head. cbn [is_full negb].
  destruct (length (SNone :: rest) =? 5)%nat eqn:E; [|eexists; reflexivity].
  apply Nat.eqb_eq in E.
  replace 5 with (Z.of_nat (length (SNone :: rest))) by (rewrite E; reflexivity).
  rewrite py_index_length_IndexError. eexists. reflexivity.
Qed.

Lemma getitem_total fuel s indices :
  exists r, getitem (S (S fuel)) s indices = Some r.
Proof.
  destruct s as [ds dim | base disp fshape | b bl idx tm];
    [eexists; reflexivity | | eexists; reflexivity].
  remember (S fuel) as fuel' eqn:Hfuel. cbn [getitem].
  destruct (py_len indices) as [n|e]; [|eexists; reflexivity].
  destruct (5 <? n)%nat; [eexists; reflexivity|].
  destruct (py_index (as_tuple indices) 0) as [times|e] eqn:Et; [|eexists; reflexivity].
  destruct (is_full times) eqn:Efull; cbn [negb].
  - destruct (length (as_tuple indices) =? 5)%nat eqn:E; [|eexists; reflexivity].
    apply Nat.eqb_eq in E.
    replace 5 with (Z.of_nat (length (as_tuple indices))) by (rewrite E; reflexivity).
    rewrite py_index_length_IndexError. eexists. reflexivity.
  - subst fuel'.
    destruct (getitem_Bare fuel base times) as [-> | ->]; [eexists; reflexivity|].
    destruct (_IndexedSequence_init base (Bare times)) as [base'|e];
      [|eexists; reflexivity].
    destruct (nd_getitem disp [times]) as [disp'|e]; [|eexists; reflexivity].
    apply getitem_SNone_total.
Qed.

End GetitemFacts.

(** C10. A bare integer or slice given to
    [_MotionCorrectedSequence.__getitem__] raises [TypeError] at
    [len(indices)], whatever the base and the displacements are, so
    nothing has been sliced; the other two classes hand the same bare
    selector to [_IndexedSequence]. *)
Theorem mcs_bare_index_TypeError `{Externals} (fuel : nat) (base : Seq)
    (disp : ndarray Z) (fshape : list nat) (sel : selector) :
  getitem (S fuel) (MotionCorrectedSequence base disp fshape) (Bare sel)
    = Some (Raise TypeError)
  /\ (forall ds dim,
        getitem (S fuel) (Sequence_HDF5 ds dim) (Bare sel)
        = Some (_IndexedSequence_init (Sequence_HDF5 ds dim) (Bare sel)))
  /\ (forall b bl idx tm,
        getitem (S fuel) (IndexedSequence b bl idx tm) (Bare sel)
        = Some (_IndexedSequence_init (IndexedSequence b bl idx tm) (Bare sel))).
Proof. repeat split. Qed.

(** C4. A 5-tuple whose time selector is the full range ([slice(None)] or
    [None]) reaches [chans = indices[5]], which is out of range for a
    5-tuple: the call raises [IndexError] and returns no sequence, whatever
    the channel selector is. *)
Theorem mcs_channel_slice_IndexError `{Externals} (fuel : nat) (base : Seq)
    (disp : ndarray Z) (fshape : list nat) (p r c chans : selector) :
  getitem (S fuel) (MotionCorrectedSequence base disp fshape)
          (Tuple [slice_None; p; r; c; chans]) = Some (Raise IndexError)
  /\ getitem (S fuel) (MotionCorrectedSequence base disp fshape)
          (Tuple [SNone; p; r; c; chans]) = Some (Raise IndexError).
Proof. split; reflexivity. Qed.

(** C3. On a motion-corrected sequence over twenty frames of two rows with
    a (40, 2) displacement array, slicing the time axis to [5:10] raises
    [TypeError] for every call depth and returns no sequence; the
    displacement array built on the way is [displacements[5:10]], the five
    array rows 5..9, and not the ten rows 10..19 of frames 5..9. *)
Theorem mcs_time_slice_5_10 :
  getitem 2 Demo.mcs20 (Tuple [Demo.s5_10]) = Some (Raise TypeError)
  /\ (forall fuel r, getitem fuel Demo.mcs20 (Tuple [Demo.s5_10]) <> Some (Ok r))
  /\ exists d, nd_getitem Demo.disp20 [Demo.s5_10] = Ok d
       /\ shape d = [5; 2]%nat
       /\ (forall k c, at_ d [k; c] = at_ Demo.disp20 [(5 + k)%nat; c])
       /\ shape d <> [10; 2]%nat.
Proof.
  split; [|split].
  - apply (time_slice_TypeError 0 Demo.base20 Demo.disp20 _ 40%nat [2%nat] 5 10);
      reflexivity.
  - intros fuel r. apply time_pushdown_raises. reflexivity.
  - eexists. split; [reflexivity|]. split; [reflexivity|]. split; [|discriminate].
    intros k c. cbn [at_ hd tail].
    change (slice_clamp (Z.of_nat 40) (default 1 None) (Some 5) 0 (Z.of_nat 40 - 1))
      with 5.
    change (default 1 None) with 1.
    replace (Z.to_nat (5 + Z.of_nat k * 1)) with (5 + k)%nat by lia. reflexivity.
Qed.

(* ===================================================================== *)
(** * Indexed sequences                                                   *)
(* ===================================================================== *)

(** No primitive of the model raises [AttributeError]. *)

Lemma benign_Ok {A} (a : A) : benign (Ok a).
Proof. intros msg. discriminate. Qed.

Lemma benign_bind {A B} (m : result A) (f : A -> result B) :
  benign m -> (forall a, benign (f a)) -> benign (m ≫= f).
Proof.
  intros Hm Hf msg. destruct m as [a|e]; cbn.
  - apply Hf.
  - intros [= ->]. exact (Hm msg eq_refl).
Qed.

Lemma benign_py_index {A} (l : list A) i : benign (py_index l i).
Proof.
  intros msg. unfold py_index.
  destruct (_ && _); [destruct (l !! _)|]; discriminate.
Qed.

Lemma benign_py_setitem {A} (l : list A) i x : benign (py_setitem l i x).
Proof. intros msg. unfold py_setitem. destruct (_ && _); discriminate. Qed.

Lemma benign_slice_indices n a b c : benign (slice_indices n a b c).
Proof. intros msg. unfold slice_indices. destruct (_ =? _); discriminate. Qed.

Lemma benign_index_plan sels : forall shp, benign (index_plan sels shp).
Proof.
  induction sels as [|sel sels IH]; intros shp; [apply benign_Ok|].
  destruct sel as [|i|a b c]; cbn [index_plan].
  - apply benign_bind; [apply IH|]. intros [? ?]. apply benign_Ok.
  - destruct shp as [|n shp]; [intros msg; discriminate|].
    cbv zeta. destruct (_ && _); [|intros msg; discriminate].
    apply benign_bind; [apply IH|]. intros [? ?]. apply benign_Ok.
  - destruct shp as [|n shp]; [intros msg; discriminate|].
    apply benign_bind; [apply benign_slice_indices|]. intros [[? ?] ?].
    apply benign_bind; [apply IH|]. intros [? ?]. apply benign_Ok.
Qed.

Lemma benign_nd_getitem {A} (a : ndarray A) sels : benign (nd_getitem a sels).
Proof.
  unfold nd_getitem. apply benign_bind; [apply benign_index_plan|].
  intros [? ?]. apply benign_Ok.
Qed.

Lemma benign_argmin l : benign (argmin l).
Proof. intros msg. destruct l; discriminate. Qed.

Lemma benign_swapaxes {A} (a : ndarray A) i j : benign (swapaxes a i j).
Proof. intros msg. unfold swapaxes. destruct (_ && _); discriminate. Qed.

(** The shape of [a[sels]] when every selector is a slice: no axis is
    dropped and none is added. *)
Lemma index_plan_slices_rank sels :
  Forall (fun s => is_slice s = true) sels ->
  forall shp shp' tr, index_plan sels shp = Ok (shp', tr) -> length shp' = length shp.
Proof.
  induction 1 as [|sel sels Hsel _ IH]; intros shp shp' tr Hplan.
  - cbn in Hplan. congruence.
  - destruct sel as [|i|a b c]; try discriminate. cbn [index_plan] in Hplan.
    destruct shp as [|n shp]; [discriminate|].
    destruct (slice_indices n a b c) as [[[b0 st] k]|]; [|discriminate].
    cbn [mbind result_bind] in Hplan.
    destruct (index_plan sels shp) as [[shp1 tr1]|] eqn:E; [|discriminate].
    cbn in Hplan. injection Hplan as <- _. cbn [length]. f_equal. eapply IH, E.
Qed.

Lemma nd_getitem_slices_ndim {A} (a b : ndarray A) sels :
  Forall (fun s => is_slice s = true) sels ->
  nd_getitem a sels = Ok b -> ndim b = ndim a.
Proof.
  intros Hs. unfold nd_getitem.
  destruct (index_plan sels (shape a)) as [[shp' tr]|] eqn:E; [|discriminate].
  cbn. intros [= <-]. unfold ndim. cbn. eapply index_plan_slices_rank; eassumption.
Qed.

(** [slice(i, i+1) if isinstance(i, int) else i] leaves slices only, unless
    a selector was [None]. *)
Lemma reformat_slices (sels : list selector) :
  Forall (fun sel => sel <> SNone) sels ->
  Forall (fun s => is_slice s = true) (map reformat sels).
Proof.
  induction 1 as [|sel sels Hsel _ IH]; cbn [map]; constructor; [|exact IH].
  destruct sel; [congruence | reflexivity | reflexivity].
Qed.

Lemma yield_each_lookup {A} (f : Z -> result A) ts :
  forall k x, fst (yield_each f ts) !! k = Some x ->
  exists t, ts !! k = Some t /\ f t = Ok x.
Proof.
  induction ts as [|t ts IH]; intros k x; cbn [yield_each].
  - cbn. discriminate.
  - destruct (f t) as [y|e] eqn:Ef; [|cbn; discriminate].
    destruct (yield_each f ts) as [xs st]. cbn [fst] in *.
    destruct k as [|k]; cbn.
    + intros [= <-]. exists t. split; [reflexivity | assumption].
    + intros Hk. destruct (IH k x Hk) as [t' [? ?]]. exists t'. split; assumption.
Qed.

Lemma yield_each_ext {A} (f g : Z -> result A) ts :
  (forall t, f t = g t) -> yield_each f ts = yield_each g ts.
Proof.
  intros Hfg. induction ts as [|t ts IH]; cbn [yield_each]; [reflexivity|].
  rewrite Hfg, IH. reflexivity.
Qed.

Lemma yield_each_benign {A} (f : Z -> result A) ts :
  (forall t, benign (f t)) ->
  forall msg, snd (yield_each f ts) <> Some (AttributeError msg).
Proof.
  intros Hf msg. induction ts as [|t ts IH]; cbn [yield_each]; [discriminate|].
  destruct (f t) as [y|e] eqn:Ef.
  - destruct (yield_each f ts) as [xs st]. exact IH.
  - cbn. intros [= ->]. exact (Hf t msg Ef).
Qed.

Section IndexedFacts.
Context `{Externals}.

Lemma benign_swap_loop {A} axes : forall swapper (frame : ndarray A),
  benign (swap_loop axes swapper frame).
Proof.
  induction axes as [|i axes IH]; intros swapper frame; [apply benign_Ok|].
  cbn [swap_loop]. apply benign_bind; [apply benign_argmin|]. intros k.
  cbv zeta. destruct (_ =? _)%nat; [apply IH|].
  apply benign_bind; [apply benign_swapaxes|]. intros _. apply IH.
Qed.

Lemma benign_set_if_present l dim target : benign (set_if_present l dim target).
Proof.
  unfold set_if_present. destruct (_ >? _); [apply benign_py_setitem | apply benign_Ok].
Qed.

Lemma benign_HDF5_get_frame ds dim t : benign (_Sequence_HDF5_get_frame ds dim t).
Proof.
  unfold _Sequence_HDF5_get_frame. cbv zeta.
  apply benign_bind; [apply benign_set_if_present|]. intros s1.
  apply benign_bind; [apply benign_py_setitem|]. intros s2.
  apply benign_bind; [apply benign_py_setitem|]. intros s3.
  apply benign_bind; [apply benign_set_if_present|]. intros s4.
  apply benign_bind; [apply benign_py_setitem|]. intros sl.
  apply benign_bind; [apply benign_nd_getitem|]. intros fr.
  apply benign_bind; [apply benign_swap_loop|]. intros fr'. apply benign_Ok.
Qed.

Lemma benign_times_at times t : benign (times_at times t).
Proof.
  destruct times; cbn; [intros msg; discriminate | apply benign_py_index].
Qed.

(** Every class defines [_get_frame], and none of them raises
    [AttributeError] from it. *)
Lemma benign_get_frame (s : Seq) : forall t, benign (_get_frame s t).
Proof.
  induction s as [ds dim | base IH disp fshape | base IH bl idx times]; intros t;
    cbn [_get_frame].
  - apply benign_HDF5_get_frame.
  - apply benign_bind; [apply IH|]. intros frame.
    apply benign_bind; [apply benign_nd_getitem|]. intros d. apply benign_Ok.
  - apply benign_bind; [apply benign_times_at|]. intros t'.
    apply benign_bind; [apply IH|]. intros frame. apply benign_nd_getitem.
Qed.

(** So the [except AttributeError] handler of [_IndexedSequence.__iter__]
    is never entered: iteration is the random-access walk. *)
Lemma iter_IndexedSequence base bl idx times :
  iter (IndexedSequence base bl idx times) = direct_walk base idx times.
Proof.
  cbn [iter].
  destruct (direct_walk base idx times) as [fs [e|]] eqn:E; [|reflexivity].
  destruct e; try reflexivity.
  exfalso. unfold direct_walk in E. destruct times as [t0|ts]; [discriminate|].
  assert (Hst : snd (yield_each
            (fun t => frame ← _get_frame base t; nd_getitem frame (tail idx)) ts)
          = Some (AttributeError msg)) by (rewrite E; reflexivity).
  revert Hst. apply yield_each_benign. intros t.
  apply benign_bind; [apply benign_get_frame|]. intros frame. apply benign_nd_getitem.
Qed.

(** What [__init__] stores. *)
Lemma init_inv base indices s :
  _IndexedSequence_init base indices = Ok s ->
  exists bl i0 times,
    len base = Ok bl /\
    py_index (map reformat (as_tuple indices)) 0 = Ok i0 /\
    list_getitem (range bl) i0 = Ok times /\
    s = IndexedSequence base bl (map reformat (as_tuple indices)) times.
Proof.
  unfold _IndexedSequence_init. intros Hinit.
  destruct (len base) as [bl|]; [|discriminate]. cbn [mbind result_bind] in Hinit.
  destruct (py_index _ 0) as [i0|] eqn:Ei; [|discriminate].
  cbn [mbind result_bind] in Hinit.
  destruct (list_getitem (range bl) i0) as [times|] eqn:Et; [|discriminate].
  cbn in Hinit. injection Hinit as <-. exists bl, i0, times. auto.
Qed.

(** C6. Over a base of length 10, the slice [2:5] has length 3; its
    [_get_frame] at 0, 1, 2 is the base's at 2, 3, 4, and its cursor yields
    the base frames 2, 3, 4 in that order and then stops. *)
Theorem slice_2_5_of_ten (base : Seq) :
  len base = Ok 10%nat ->
  exists s,
    _IndexedSequence_init base (Bare (SSlice (Some 2) (Some 5) None)) = Ok s
    /\ len s = Ok 3%nat
    /\ _get_frame s 0 = _get_frame base 2
    /\ _get_frame s 1 = _get_frame base 3
    /\ _get_frame s 2 = _get_frame base 4
    /\ iter s = yield_each (_get_frame base) [2; 3; 4]
    /\ (forall f2 f3 f4,
          _get_frame base 2 = Ok f2 -> _get_frame base 3 = Ok f3 ->
          _get_frame base 4 = Ok f4 -> iter s = ([f2; f3; f4], None)).
Proof.
  intros Hlen.
  assert (Hid : forall t, (frame ← _get_frame base t; nd_getitem frame [])
                          = _get_frame base t).
  { intros t. destruct (_get_frame base t) as [g|e]; cbn; [apply nd_getitem_nil|reflexivity]. }
  exists (IndexedSequence base 10 [SSlice (Some 2) (Some 5) None] (Many [2; 3; 4])).
  split; [|split; [|split; [|split; [|split; [|split]]]]].
  - unfold _IndexedSequence_init. rewrite Hlen. reflexivity.
  - eapply (len_IndexedSequence base _ _ [] _ 10 [2; 3; 4]); [exact Hlen | reflexivity].
  - cbn [_get_frame]. apply (Hid 2).
  - cbn [_get_frame]. apply (Hid 3).
  - cbn [_get_frame]. apply (Hid 4).
  - rewrite iter_IndexedSequence. unfold direct_walk.
    apply yield_each_ext. intros t. apply Hid.
  - intros f2 f3 f4 H2 H3 H4. rewrite iter_IndexedSequence. unfold direct_walk.
    cbn [yield_each as_tuple map reformat tail]. rewrite !Hid, H2, H3, H4. reflexivity.
Qed.

(** The same slice with the other four axes spelled out as full ranges:
    the same frames, provided the base frames have the four axes. *)
Lemma slice_2_5_full_axes (base : Seq) :
  len base = Ok 10%nat ->
  exists s,
    _IndexedSequence_init base
      (Tuple (SSlice (Some 2) (Some 5) None :: replicate 4 slice_None)) = Ok s
    /\ len s = Ok 3%nat
    /\ forall k f, 0 <= k < 3 -> _get_frame base (k + 2) = Ok f -> (4 <= ndim f)%nat ->
         exists f', _get_frame s k = Ok f' /\ nd_eq f' f.
Proof.
  intros Hlen.
  exists (IndexedSequence base 10
            (SSlice (Some 2) (Some 5) None :: replicate 4 slice_None) (Many [2; 3; 4])).
  split; [|split].
  - unfold _IndexedSequence_init. rewrite Hlen. reflexivity.
  - eapply (len_IndexedSequence base _ _ _ _ 10 [2; 3; 4]); [exact Hlen | reflexivity].
  - intros k f Hk Hf Hrank. cbn [_get_frame tail].
    assert (Ht : times_at (Many [2; 3; 4]) k = Ok (k + 2)).
    { assert (k = 0 \/ k = 1 \/ k = 2) as [-> | [-> | ->]] by lia; reflexivity. }
    rewrite Ht. cbn [mbind result_bind]. rewrite Hf. cbn [mbind result_bind].
    apply nd_getitem_full, Hrank.
Qed.
End IndexedFacts.

(** The theorem above at the demo data. *)
Lemma slice_2_5_of_ten_witness :
  len Demo.base10 = Ok 10%nat /\
  exists s,
    _IndexedSequence_init Demo.base10 (Bare (SSlice (Some 2) (Some 5) None)) = Ok s
    /\ len s = Ok 3%nat
    /\ _get_frame s 0 = _get_frame Demo.base10 2
    /\ _get_frame s 1 = _get_frame Demo.base10 3
    /\ _get_frame s 2 = _get_frame Demo.base10 4
    /\ iter s = yield_each (_get_frame Demo.base10) [2; 3; 4]
    /\ (forall f2 f3 f4,
          _get_frame Demo.base10 2 = Ok f2 -> _get_frame Demo.base10 3 = Ok f3 ->
          _get_frame Demo.base10 4 = Ok f4 -> iter s = ([f2; f3; f4], None)).
Proof.
  split; [reflexivity|]. apply (slice_2_5_of_ten Demo.base10). reflexivity.
Defined.

(* ===================================================================== *)
(** * Cursors of a random-access sequence                                 *)
(* ===================================================================== *)

Lemma yield_each_app {A} (f : Z -> result A) l1 l2 :
  yield_each f (l1 ++ l2) =
  match yield_each f l1 with
  | (xs, None) => let '(ys, st) := yield_each f l2 in (xs ++ ys, st)
  | (xs, Some e) => (xs, Some e)
  end.
Proof.
  induction l1 as [|t l1 IH]; cbn [yield_each app].
  - destruct (yield_each f l2). reflexivity.
  - destruct (f t) as [x|e]; [|reflexivity]. rewrite IH.
    destruct (yield_each f l1) as [xs [e|]]; [reflexivity|].
    destruct (yield_each f l2). reflexivity.
Qed.

Lemma range_S (n : nat) : range (S n) = range n ++ [Z.of_nat n].
Proof. unfold range. rewrite seq_S, map_app. reflexivity. Qed.

Lemma range_split (t n : nat) :
  (t < n)%nat -> exists rest, range n = range (S t) ++ rest.
Proof.
  intros Hlt. exists (map Z.of_nat (seq (S t) (n - S t))). unfold range.
  rewrite <- map_app, <- seq_app. do 2 f_equal. lia.
Qed.

Section CursorFacts.
Context `{Externals}.

Lemma loop_next_inv s n t fs :
  len s = Ok n -> (t <= n)%nat ->
  yield_each (_get_frame s) (range t) = (fs, None) ->
  cursor_inv s (S t) (snd (loop_next s n t))
             (record_step (fs, None) (fst (loop_next s n t))).
Proof.
  intros Hlen Hle Hfs. unfold loop_next.
  destruct (t <? n)%nat eqn:Et.
  - apply Nat.ltb_lt in Et.
    assert (HS : yield_each (_get_frame s) (range (S t)) =
                 match _get_frame s (Z.of_nat t) with
                 | Ok x => (fs ++ [x], None)
                 | Raise e => (fs, Some e)
                 end).
    { rewrite range_S, yield_each_app, Hfs. cbn [yield_each].
      destruct (_get_frame s (Z.of_nat t)); [reflexivity|].
      rewrite app_nil_r. reflexivity. }
    destruct (_get_frame s (Z.of_nat t)) as [x|e] eqn:Ex; cbn [fst snd record_step].
    + apply inv_suspended; [assumption | lia | lia | exact HS].
    + apply inv_finished; [lia|]. unfold _IndexableSequence_iter. rewrite Hlen.
      destruct (range_split t n Et) as [rest ->].
      rewrite yield_each_app, HS. reflexivity.
  - apply Nat.ltb_ge in Et. assert (t = n) as -> by lia.
    cbn [fst snd record_step]. apply inv_finished; [lia|].
    unfold _IndexableSequence_iter. rewrite Hlen. symmetry. exact Hfs.
Qed.

Lemma cursor_next_inv s k c out :
  cursor_inv s k c out ->
  cursor_inv s (S k) (snd (cursor_next s c)) (record_step out (fst (cursor_next s c))).
Proof.
  intros [| n t fs Hlen Hle Hpos Hfs | k' out' Hpos ->]; cbn [cursor_next].
  - destruct (len s) as [n|e] eqn:Hlen.
    + apply (loop_next_inv s n 0%nat []); [assumption | lia | reflexivity].
    + cbn [fst snd record_step]. apply inv_finished; [lia|].
      unfold _IndexableSequence_iter. rewrite Hlen. reflexivity.
  - apply loop_next_inv; assumption.
  - cbn [fst snd record_step]. apply inv_finished; [lia | reflexivity].
Qed.

(** Advancing one cursor leaves the other as it is, so both invariants
    are kept along any schedule. *)
Lemma interleave_inv s schedule : forall w k1 k2,
  cursor_inv s k1 (cur1 w) (out1 w) ->
  cursor_inv s k2 (cur2 w) (out2 w) ->
  cursor_inv s (k1 + advances true schedule)
             (cur1 (interleave s schedule w)) (out1 (interleave s schedule w))
  /\ cursor_inv s (k2 + advances false schedule)
             (cur2 (interleave s schedule w)) (out2 (interleave s schedule w)).
Proof.
  induction schedule as [|b schedule IH]; intros w k1 k2 H1 H2.
  - unfold advances. cbn. rewrite !Nat.add_0_r. split; assumption.
  - destruct b; cbn [interleave].
    + destruct (cursor_next s (cur1 w)) as [r c] eqn:E.
      pose proof (cursor_next_inv s k1 _ _ H1) as H1'. rewrite E in H1'.
      cbn [fst snd] in H1'.
      specialize (IH (TwoCursors c (record_step (out1 w) r) (cur2 w) (out2 w))
                     (S k1) k2 H1' H2).
      unfold advances in *. cbn [List.filter Bool.eqb length].
      rewrite <- plus_n_Sm. exact IH.
    + destruct (cursor_next s (cur2 w)) as [r c] eqn:E.
      pose proof (cursor_next_inv s k2 _ _ H2) as H2'. rewrite E in H2'.
      cbn [fst snd] in H2'.
      specialize (IH (TwoCursors (cur1 w) (out1 w) c (record_step (out2 w) r))
                     k1 (S k2) H1 H2').
      unfold advances in *. cbn [List.filter Bool.eqb length].
      rewrite <- plus_n_Sm. exact IH.
Qed.

Lemma cursor_inv_done s k c out :
  cursor_inv s k c out -> (steps_needed s <= k)%nat -> out = _IndexableSequence_iter s.
Proof.
  unfold steps_needed.
  intros [| n t fs Hlen Hle Hpos Hfs | k' out' Hpos ->] Hk.
  - destruct (len s); lia.
  - rewrite Hlen in Hk. lia.
  - reflexivity.
Qed.

(** C9. Two cursors taken from one sequence and advanced in any
    interleaving each yield the complete frame sequence of
    [_IndexableSequence.__iter__], once each has been advanced often enough
    to be exhausted; the two yield the same frames and end the same way. *)
Theorem two_cursors_same_frames (s : Seq) (schedule : list bool) :
  (steps_needed s <= advances true schedule)%nat ->
  (steps_needed s <= advances false schedule)%nat ->
  out1 (interleave s schedule two_fresh) = _IndexableSequence_iter s
  /\ out2 (interleave s schedule two_fresh) = _IndexableSequence_iter s
  /\ out1 (interleave s schedule two_fresh) = out2 (interleave s schedule two_fresh).
Proof.
  intros H1 H2.
  destruct (interleave_inv s schedule two_fresh 0 0 (inv_fresh s) (inv_fresh s))
    as [I1 I2].
  pose proof (cursor_inv_done _ _ _ _ I1 H1) as E1.
  pose proof (cursor_inv_done _ _ _ _ I2 H2) as E2.
  split; [exact E1 | split; [exact E2 | congruence]].
Qed.

End CursorFacts.

(** At the single-frame demo sequence, its two cursors advanced
    alternately. *)
Lemma two_cursors_same_frames_witness :
  out1 (interleave Demo.txy [true; false; false; true] two_fresh)
    = _IndexableSequence_iter Demo.txy
  /\ out2 (interleave Demo.txy [true; false; false; true] two_fresh)
    = _IndexableSequence_iter Demo.txy
  /\ out1 (interleave Demo.txy [true; false; false; true] two_fresh)
    = out2 (interleave Demo.txy [true; false; false; true] two_fresh).
Proof.
  apply (two_cursors_same_frames Demo.txy [true; false; false; true]);
    vm_compute; lia.
Defined.

(* ===================================================================== *)
(** * The HDF5 adapter                                                    *)
(* ===================================================================== *)

(** Whatever swaps the loop of [_get_frame] computes, it returns the frame
    it was given. *)
Lemma swap_loop_unchanged {A} axes : forall swapper (frame f : ndarray A),
  swap_loop axes swapper frame = Ok f -> f = frame.
Proof.
  induction axes as [|i axes IH]; intros swapper frame f; cbn [swap_loop].
  - congruence.
  - destruct (argmin (drop i swapper)) as [k|]; [|discriminate].
    cbn [mbind result_bind]. destruct (_ =? _)%nat; [apply IH|].
    destruct (swapaxes frame i (k + i)) as [fr'|]; [|discriminate].
    cbn [mbind result_bind]. apply IH.
Qed.

(** Hence a frame read from the dataset keeps the axes in stored order: it
    is the converted hyperslab, for every dimension order. *)
Lemma HDF5_get_frame_as_stored `{Externals} ds dim t f :
  _Sequence_HDF5_get_frame ds dim t = Ok f ->
  exists slices frame,
    py_setitem (replicate (length (shape ds)) slice_None) (find dim "t") (SInt t)
      = Ok slices
    /\ nd_getitem ds slices = Ok frame
    /\ f = astype to_float frame.
Proof.
  unfold _Sequence_HDF5_get_frame. cbv zeta.
  destruct (set_if_present _ _ 0) as [s1|]; [|discriminate]. cbn [mbind result_bind].
  destruct (py_setitem s1 _ _) as [s2|]; [|discriminate]. cbn [mbind result_bind].
  destruct (py_setitem s2 _ _) as [s3|]; [|discriminate]. cbn [mbind result_bind].
  destruct (set_if_present s3 _ 3) as [s4|]; [|discriminate]. cbn [mbind result_bind].
  destruct (py_setitem _ _ (SInt t)) as [slices|] eqn:Es; [|discriminate].
  cbn [mbind result_bind].
  destruct (nd_getitem ds slices) as [frame|] eqn:Ef; [|discriminate].
  cbn [mbind result_bind].
  destruct (swap_loop _ _ frame) as [frame'|] eqn:E; [|discriminate].
  cbn [mbind result_bind]. intros [= <-].
  apply swap_loop_unchanged in E as ->. exists slices, frame. auto.
Qed.

Lemma in_bounds_2 (idx : list nat) (a b : nat) :
  in_bounds idx [a; b] -> exists i j, idx = [i; j] /\ (i < a)%nat /\ (j < b)%nat.
Proof.
  intros Hb. inversion Hb as [|i ? l1 ? Hi Hb1]; subst.
  inversion Hb1 as [|j ? l2 ? Hj Hb2]; subst. inversion Hb2; subst. eauto.
Qed.

(** C1. For the dimension order ["txy"] the frame [_get_frame] returns
    has the axes as stored, (x, y), shape (2, 3) here; the selection sort
    of the specification, in which each swap replaces the frame, gives the
    (row, column) frame of shape (3, 2).  The code computes the swapped
    view and drops it. *)
Theorem hdf5_txy_not_reordered :
  exists f g,
    @_Sequence_HDF5_init Demo.externals (Demo.dataset [1; 2; 3]%nat) "txy"
      = Ok Demo.txy
    /\ _get_frame Demo.txy 0 = Ok f
    /\ nd_eq f Demo.txy_as_stored
    /\ @get_frame_spec Demo.externals (Demo.dataset [1; 2; 3]%nat) "txy" 0 = Ok g
    /\ nd_eq g Demo.txy_canonical
    /\ shape f = [2; 3]%nat /\ shape g = [3; 2]%nat.
Proof.
  eexists. eexists.
  split; [reflexivity|].
  split; [reflexivity|].
  split.
  { split; [reflexivity|]. intros idx Hb. change (in_bounds idx [2; 3]%nat) in Hb.
    apply in_bounds_2 in Hb as (i & j & -> & Hi & Hj).
    destruct i as [|[|i]]; [| |lia]; destruct j as [|[|[|j]]]; try lia; reflexivity. }
  split; [reflexivity|].
  split.
  { split; [reflexivity|]. intros idx Hb. change (in_bounds idx [3; 2]%nat) in Hb.
    apply in_bounds_2 in Hb as (i & j & -> & Hi & Hj).
    destruct i as [|[|[|i]]]; try lia; destruct j as [|[|j]]; try lia; reflexivity. }
  split; reflexivity.
Qed.

(* ===================================================================== *)
(** * The path resolver                                                   *)
(* ===================================================================== *)

Section PathFacts.
Context `{FileSystem}.

Lemma size_union_singleton_le (X : gset string) (x : string) :
  (size (X ∪ {[ x ]}) <= S (size X))%nat.
Proof.
  rewrite size_union_alt.
  assert (size (({[ x ]} : gset string) ∖ X) <= size ({[ x ]} : gset string))%nat
    by (apply subseteq_size, subseteq_difference_l; reflexivity).
  rewrite size_singleton in *. lia.
Qed.

(** At most two candidates, none only when neither key is stored; the
    dictionary loses the two keys. *)
Lemma candidates_spec d savedir :
  let paths := fst (candidates d savedir) in
  (size paths <= 2)%nat
  /\ (is_Some (d !! "_relpath") \/ is_Some (d !! "_abspath") -> size paths <> 0%nat)
  /\ (forall x, x ∈ paths <->
        (exists relp, d !! "_relpath" = Some relp /\ x = canonical (join savedir relp))
        \/ (exists absp, d !! "_abspath" = Some absp /\ x = canonical absp))
  /\ snd (candidates d savedir) = delete "_abspath" (delete "_relpath" d).
Proof.
  unfold candidates.
  destruct (d !! "_relpath") as [relp|] eqn:Er.
  - rewrite lookup_delete_ne by discriminate.
    destruct (d !! "_abspath") as [absp|] eqn:Ea; cbn [fst snd].
    + split; [|split; [|split]].
      * etransitivity; [apply size_union_singleton_le|].
        rewrite (left_id_L ∅ (∪)), size_singleton. lia.
      * intros _ Hz. apply size_empty_inv in Hz. set_solver.
      * intros x. rewrite !elem_of_union, !elem_of_singleton. split.
        -- intros [[Hx | ->] | ->]; [set_solver | left | right]; eauto.
        -- intros [(r & [= <-] & ->) | (a & [= <-] & ->)]; auto.
      * reflexivity.
    + split; [|split; [|split]].
      * rewrite (left_id_L ∅ (∪)), size_singleton. lia.
      * intros _ Hz. apply size_empty_inv in Hz. set_solver.
      * intros x. rewrite !elem_of_union, !elem_of_singleton. split.
        -- intros [Hx | ->]; [set_solver | left]; eauto.
        -- intros [(r & [= <-] & ->) | (a & [=] & _)]; auto.
      * rewrite (delete_id (delete "_relpath" d)); [reflexivity|].
        rewrite lookup_delete_ne by discriminate. exact Ea.
  - destruct (d !! "_abspath") as [absp|] eqn:Ea; cbn [fst snd].
    + split; [|split; [|split]].
      * rewrite (left_id_L ∅ (∪)), size_singleton. lia.
      * intros _ Hz. apply size_empty_inv in Hz. set_solver.
      * intros x. rewrite !elem_of_union, !elem_of_singleton. split.
        -- intros [Hx | ->]; [set_solver | right]; eauto.
        -- intros [(r & [=] & _) | (a & [= <-] & ->)]; auto.
      * rewrite (delete_id d "_relpath") by exact Er. reflexivity.
    + split; [|split; [|split]].
      * rewrite size_empty. lia.
      * intros [[? [=]] | [? [=]]].
      * intros x. split; [set_solver|].
        intros [(r & [=] & _) | (a & [=] & _)].
      * rewrite (delete_id d "_relpath") by exact Er.
        rewrite (delete_id d "_abspath") by exact Ea. reflexivity.
Qed.

(** C8. With a stored relative and/or absolute path, the candidates are
    the two canonical locations; those that are not files are discarded;
    then: none left, the call fails (the [IndexError] of popping the empty
    list); one left, it becomes ['path']; two left, the call fails with the
    ambiguity [Exception] unless [samefile] identifies them, in which case
    one of them becomes ['path'].  More than two cannot remain. *)
Theorem resolve_paths_cases (d : gmap string string) (savedir : string) :
  is_Some (d !! "_relpath") \/ is_Some (d !! "_abspath") ->
  (forall x, x ∈ fst (candidates d savedir) <->
     (exists relp, d !! "_relpath" = Some relp /\ x = canonical (join savedir relp))
     \/ (exists absp, d !! "_abspath" = Some absp /\ x = canonical absp))
  /\
  let d' := delete "_abspath" (delete "_relpath" d) in
  match List.filter isfile (elements (fst (candidates d savedir))) with
  | [] => _resolve_paths d savedir = Raise IndexError
  | [p] => _resolve_paths d savedir = Ok (<["path" := p]> d')
  | [p; q] =>
      _resolve_paths d savedir =
      if samefile q p then Ok (<["path" := p]> d') else Raise (Exception_ ambiguous)
  | _ => False
  end.
Proof.
  intros Hkeys.
  destruct (candidates_spec d savedir) as (Hsize & Hne & Hmem & Hd).
  cbv zeta in Hsize, Hne, Hmem. split; [exact Hmem|]. cbv zeta.
  specialize (Hne Hkeys). unfold _resolve_paths.
  destruct (candidates d savedir) as [paths d1]. cbn [fst snd] in *. subst d1.
  destruct (size paths =? 0)%nat eqn:Ez; [apply Nat.eqb_eq in Ez; contradiction|].
  assert (Hlen : (length (List.filter isfile (elements paths)) <= 2)%nat).
  { etransitivity; [apply List.filter_length_le|]. exact Hsize. }
  destruct (List.filter isfile (elements paths)) as [|p [|q [|r l]]].
  - reflexivity.
  - reflexivity.
  - cbn. destruct (samefile q p); reflexivity.
  - cbn in Hlen. lia.
Qed.

End PathFacts.

(** The three outcomes on the demo file system: two names of one file, two
    different files, no file. *)
Lemma resolve_paths_same_file :
  exists p,
    @_resolve_paths Demo.files
      (<["_relpath" := "a.h5"%string]> (<["_abspath" := "/link/a.h5"%string]> ∅)) "/proj"
    = Ok (<["path" := p]> ∅)
    /\ (p = "/proj/a.h5"%string \/ p = "/link/a.h5"%string).
Proof. vm_compute. eexists. split; [reflexivity|]. auto. Qed.

Lemma resolve_paths_two_files :
  @_resolve_paths Demo.files
    (<["_relpath" := "a.h5"%string]> (<["_abspath" := "/old/a.h5"%string]> ∅)) "/proj"
  = Raise (Exception_ ambiguous).
Proof. vm_compute. reflexivity. Qed.

Lemma resolve_paths_no_file :
  @_resolve_paths Demo.files (<["_abspath" := "/gone/a.h5"%string]> ∅) "/proj"
  = Raise IndexError.
Proof. vm_compute. reflexivity. Qed.


(** At the demo data: the relative and the absolute path name the same
    existing file. *)
Lemma resolve_paths_cases_witness :
  (is_Some (Demo.stored !! "_relpath") \/ is_Some (Demo.stored !! "_abspath"))
  /\ @_resolve_paths Demo.files Demo.stored "/proj" = Ok Demo.resolved.
Proof.
  split; [left; eexists; reflexivity|].
  pose proof (@resolve_paths_cases Demo.files Demo.stored "/proj"
                (or_introl (ex_intro _ "a.h5"%string eq_refl))) as [_ Hcase].
  vm_compute in Hcase. vm_compute. exact Hcase.
Defined.

(* ===================================================================== *)
(** * The gap filler                                                      *)
(* ===================================================================== *)

Module GapFillerFacts.
Import GapFiller.

(** ** Multiplying by 1.0 is exact *)

Lemma shr_fexp_canonical (m : positive) (e : Z) :
  canonical_mantissa prec emax m e = true ->
  shr_fexp prec emax (Zpos m) e loc_Exact = (Build_shr_record (Zpos m) false false, e).
Proof.
  unfold canonical_mantissa, shr_fexp. intros Hc. apply Z.eqb_eq in Hc.
  cbn [Zdigits2 shr_record_of_loc]. rewrite Hc, Z.sub_diag. reflexivity.
Qed.

Lemma mul_2_52 (m : positive) :
  (4503599627370496 * m)%positive = Pos.iter xO m 52.
Proof. reflexivity. Qed.

Lemma digits2_shift (m : positive) (n : positive) :
  Zpos (digits2_pos (Pos.iter xO m n)) = Zpos (digits2_pos m) + Zpos n.
Proof.
  induction n as [|n IH] using Pos.peano_ind.
  - cbn. lia.
  - rewrite Pos.iter_succ. cbn [digits2_pos]. lia.
Qed.

Lemma shr_shift (m : positive) (n : positive) :
  SpecFloat.iter_pos shr_1 n (Build_shr_record (Zpos (Pos.iter xO m n)) false false)
  = Build_shr_record (Zpos m) false false.
Proof.
  revert m. induction n as [n IH | n IH |]; intros m.
  - cbn [SpecFloat.iter_pos]. rewrite Pos.xI_succ_xO, Pos.iter_succ.
    cbn [shr_1 orb].
    replace (Pos.iter xO m n~0) with (Pos.iter xO (Pos.iter xO m n) n)
      by (rewrite <- Pos.iter_add; f_equal; lia).
    rewrite IH. apply IH.
  - cbn [SpecFloat.iter_pos].
    replace (Pos.iter xO m n~0) with (Pos.iter xO (Pos.iter xO m n) n)
      by (rewrite <- Pos.iter_add; f_equal; lia).
    rewrite IH. apply IH.
  - reflexivity.
Qed.

Lemma fmul_one (x : float) : valid x = true -> fmul fone x = x.
Proof.
  destruct x as [s|s| |s m e]; try reflexivity.
  unfold valid, valid_binary, bounded. intros Hb.
  apply andb_true_iff in Hb as [Hc He].
  change (fmul fone (S754_finite s m e)) with
    (binary_round_aux prec emax s (Zpos (Pos.mul 4503599627370496 m)) (-52 + e) loc_Exact).
  rewrite mul_2_52. unfold binary_round_aux.
  assert (Hsh : shr_fexp prec emax (Z.pos (Pos.iter xO m 52)) (-52 + e) loc_Exact
                = (Build_shr_record (Zpos m) false false, e)).
  { unfold shr_fexp. cbn [Zdigits2]. rewrite digits2_shift.
    pose proof Hc as Hc'. unfold canonical_mantissa in Hc'. apply Z.eqb_eq in Hc'.
    replace (Z.pos (digits2_pos m) + 52 + (-52 + e)) with (Z.pos (digits2_pos m) + e) by lia.
    rewrite Hc'. replace (e - (-52 + e)) with 52 by lia.
    unfold shr. cbn [shr_record_of_loc]. rewrite shr_shift.
    f_equal. lia. }
  rewrite Hsh. cbn [shr_m loc_of_shr_record round_nearest_even].
  rewrite (shr_fexp_canonical m e Hc). cbn [shr_m].
  unfold prec, emax in *. rewrite He. reflexivity.
Qed.

Local Open Scope nat_scope.

(** ** Pixels of frames of one shape *)

Lemma pixel_zip_with (f : float -> float -> float) (a b : gframe) c p :
  pixel (zip_with (zip_with f) a b) c p =
  (x ← pixel a c p; y ← pixel b c p; Some (f x y)).
Proof.
  unfold pixel. rewrite lookup_zip_with.
  destruct (a !! c) as [ca|]; cbn; [|reflexivity].
  destruct (b !! c) as [cb|]; cbn.
  - rewrite lookup_zip_with. destruct (ca !! p); reflexivity.
  - destruct (ca !! p); reflexivity.
Qed.

Lemma frame_shape_zip_with (f : float -> float -> float) (a : gframe) :
  forall b, frame_shape a = frame_shape b ->
  frame_shape (zip_with (zip_with f) a b) = frame_shape a.
Proof.
  unfold frame_shape.
  induction a as [|ca a IH]; intros [|cb b]; cbn; try congruence.
  intros [= Hc Hr]. rewrite length_zip_with, <- Hc, Nat.min_id. f_equal. apply IH, Hr.
Qed.

Lemma pixel_is_Some_shape (f : gframe) c p :
  is_Some (pixel f c p) <-> exists n, frame_shape f !! c = Some n /\ p < n.
Proof.
  unfold pixel, frame_shape. rewrite list_lookup_fmap.
  destruct (f !! c) as [ch|]; cbn.
  - rewrite lookup_lt_is_Some. split.
    + intros Hp. eauto.
    + intros (n & [= <-] & Hp). exact Hp.
  - split; [intros [? [=]] | intros (n & [=] & _)].
Qed.

Lemma pixel_same_shape (f g : gframe) c p x :
  frame_shape f = frame_shape g -> pixel f c p = Some x ->
  exists y, pixel g c p = Some y.
Proof.
  intros Hs Hx. assert (Hf : is_Some (pixel f c p)) by eauto.
  apply pixel_is_Some_shape in Hf. rewrite Hs in Hf.
  apply pixel_is_Some_shape in Hf. exact Hf.
Qed.

Lemma update_channels_uniform upd (g : float -> float -> float) :
  (forall fc ac, length fc = length ac -> upd fc ac = Ok (zip_with g ac fc)) ->
  forall frame acc, frame_shape frame = frame_shape acc ->
  update_channels upd frame acc = Ok (zip_with (zip_with g) acc frame).
Proof.
  intros Hupd. unfold frame_shape.
  induction frame as [|fc frame IH]; intros [|ac acc]; cbn; try congruence.
  intros [= Hc Hr]. rewrite (Hupd fc ac Hc). cbn. rewrite (IH acc Hr). reflexivity.
Qed.

Lemma fill_first_obs_uniform fc ac :
  length fc = length ac ->
  fill_first_obs fc ac = Ok (zip_with (fun fo fr => if isnan fo then fr else fo) ac fc).
Proof. intros Hl. unfold fill_first_obs. rewrite Hl, Nat.eqb_refl. reflexivity. Qed.

Lemma fill_most_recent_uniform fc ac :
  length fc = length ac ->
  fill_most_recent fc ac = Ok (zip_with (fun mr fr => if isfinite fr then fr else mr) ac fc).
Proof. intros Hl. unfold fill_most_recent. rewrite Hl, Nat.eqb_refl. reflexivity. Qed.

Lemma all_finite_pixel (f : gframe) c p x :
  all_finite f = true -> pixel f c p = Some x -> isfinite x = true.
Proof.
  unfold all_finite, pixel. intros Hall Hx.
  destruct (f !! c) as [ch|] eqn:Ec; [|discriminate]. cbn in Hx.
  rewrite forallb_forall in Hall.
  assert (Hch : forallb isfinite ch = true).
  { apply Hall. apply list_elem_of_In. eapply list_elem_of_lookup_2, Ec. }
  rewrite forallb_forall in Hch. apply Hch.
  apply list_elem_of_In. eapply list_elem_of_lookup_2, Hx.
Qed.

Lemma every_pixel_lookup P (frames : list gframe) k f c p x :
  every_pixel P frames = true -> frames !! k = Some f -> pixel f c p = Some x ->
  P x = true.
Proof.
  unfold every_pixel, pixel. intros Hall Hk Hx.
  destruct (f !! c) as [ch|] eqn:Ec; [|discriminate]. cbn in Hx.
  rewrite forallb_forall in Hall.
  assert (Hf : forallb (forallb P) f = true).
  { apply Hall. apply list_elem_of_In. eapply list_elem_of_lookup_2, Hk. }
  rewrite forallb_forall in Hf.
  assert (Hch : forallb P ch = true).
  { apply Hf. apply list_elem_of_In. eapply list_elem_of_lookup_2, Ec. }
  rewrite forallb_forall in Hch. apply Hch.
  apply list_elem_of_In. eapply list_elem_of_lookup_2, Hx.
Qed.

Lemma history_cons f frames c p x :
  pixel f c p = Some x -> history (f :: frames) c p = x :: history frames c p.
Proof. intros Hx. unfold history. cbn. rewrite Hx. reflexivity. Qed.

(** ** The first loop *)

Lemma isfinite_not_nan x : isfinite x = true -> isnan x = false.
Proof. destruct x; cbn; congruence. Qed.

Lemma pass1_baseline shp : forall frames first_obs,
  frame_shape first_obs = shp -> uniform shp frames ->
  exists fo, pass1 first_obs frames None = Ok fo
    /\ frame_shape fo = shp
    /\ forall c p v, pixel first_obs c p = Some v ->
         pixel fo c p = Some (first_non_nan (v :: history frames c p)).
Proof.
  induction frames as [|frame frames IH]; intros first_obs Hs Hu.
  - exists first_obs. cbn [pass1]. split; [reflexivity|]. split; [assumption|].
    intros c p v Hv. change (history [] c p) with (@nil float).
    cbn [first_non_nan]. destruct (isnan v) eqn:E; [|assumption].
    destruct v; try discriminate. assumption.
  - apply Forall_cons in Hu as [Hf Hu']. cbn [pass1].
    rewrite (update_channels_uniform _ _ fill_first_obs_uniform)
      by congruence.
    cbn [mbind result_bind].
    set (fo1 := zip_with (zip_with (fun fo fr => if isnan fo then fr else fo))
                  first_obs frame).
    assert (Hs1 : frame_shape fo1 = shp).
    { unfold fo1. rewrite frame_shape_zip_with; congruence. }
    assert (Hpx : forall c p v, pixel first_obs c p = Some v ->
              exists w, pixel frame c p = Some w /\
                        pixel fo1 c p = Some (if isnan v then w else v)).
    { intros c p v Hv.
      destruct (pixel_same_shape first_obs frame c p v) as [w Hw]; [congruence|assumption|].
      exists w. split; [assumption|]. unfold fo1. rewrite pixel_zip_with, Hv, Hw.
      reflexivity. }
    destruct (all_finite fo1) eqn:Efin.
    + exists fo1. split; [reflexivity|]. split; [assumption|].
      intros c p v Hv. destruct (Hpx c p v Hv) as (w & Hw & H1).
      rewrite H1. f_equal. rewrite (history_cons _ _ _ _ _ Hw).
      pose proof (all_finite_pixel _ _ _ _ Efin H1) as Hfin.
      apply isfinite_not_nan in Hfin. cbn [first_non_nan].
      destruct (isnan v); [rewrite Hfin|]; reflexivity.
    + destruct (IH fo1 Hs1 Hu') as (fo & Hp1 & Hsfo & Hfo).
      exists fo. split; [assumption|]. split; [assumption|].
      intros c p v Hv. destruct (Hpx c p v Hv) as (w & Hw & H1).
      rewrite (Hfo c p _ H1), (history_cons _ _ _ _ _ Hw). f_equal.
      cbn [first_non_nan]. destruct (isnan v) eqn:Ev; [reflexivity|].
      rewrite Ev. reflexivity.
Qed.

(** ** The second loop *)

Lemma pixel_map (g : float -> float) (f : list (list float)) c p :
  pixel (map (map g) f) c p = g <$> pixel f c p.
Proof.
  unfold pixel. rewrite list_lookup_fmap. destruct (f !! c) as [ch|]; cbn; [|reflexivity].
  apply list_lookup_fmap.
Qed.

Lemma frame_shape_map (g : float -> float) (f : list (list float)) :
  frame_shape (map (map g) f) = frame_shape f.
Proof.
  unfold frame_shape. rewrite map_map. apply map_ext. intros ch. apply length_map.
Qed.

Lemma fmul_nan x : fmul x nan = nan.
Proof. destruct x; reflexivity. Qed.

Lemma history_take_S frames k f c p x :
  frames !! k = Some f -> pixel f c p = Some x ->
  history (take (S k) frames) c p = history (take k frames) c p ++ [x].
Proof.
  intros Hk Hx. rewrite (take_S_r _ _ _ Hk). unfold history.
  rewrite omap_app. cbn. rewrite Hx. reflexivity.
Qed.

Lemma pass2_pixels shp fo :
  frame_shape fo = shp ->
  forall frames mr, frame_shape mr = shp -> uniform shp frames ->
  exists out, pass2 fo mr frames None = (out, None)
    /\ length out = length frames
    /\ Forall (fun g => frame_shape g = shp) out
    /\ forall k g c p m b,
         out !! k = Some g -> pixel mr c p = Some m -> pixel fo c p = Some b ->
         pixel g c p = Some (blend (latest m (history (take (S k) frames) c p)) b).
Proof.
  intros Hfo. induction frames as [|frame frames IH]; intros mr Hmr Hu.
  - exists []. repeat split; [constructor|]. intros k g c p m b Hk. discriminate.
  - apply Forall_cons in Hu as [Hf Hu']. cbn [pass2].
    rewrite (update_channels_uniform _ _ fill_most_recent_uniform) by congruence.
    set (mr1 := zip_with (zip_with (fun mr fr => if isfinite fr then fr else mr)) mr frame).
    assert (Hs1 : frame_shape mr1 = shp).
    { unfold mr1. rewrite frame_shape_zip_with; congruence. }
    assert (Hpx : forall c p m, pixel mr c p = Some m ->
              exists w, pixel frame c p = Some w /\
                        pixel mr1 c p = Some (if isfinite w then w else m)).
    { intros c p m Hm.
      destruct (pixel_same_shape mr frame c p m) as [w Hw]; [congruence|assumption|].
      exists w. split; [assumption|]. unfold mr1. rewrite pixel_zip_with, Hm, Hw.
      reflexivity. }
    destruct (IH mr1 Hs1 Hu') as (out & Hp2 & Hlen & Hshape & Hout).
    rewrite Hp2. exists (emit mr1 fo :: out).
    split; [reflexivity|]. split; [cbn; congruence|].
    split.
    { constructor; [|assumption]. unfold emit. rewrite frame_shape_zip_with; congruence. }
    intros k g c p m b Hk Hm Hb. destruct (Hpx c p m Hm) as (w & Hw & H1).
    destruct k as [|k]; cbn in Hk.
    + injection Hk as <-. unfold emit. rewrite pixel_zip_with, H1, Hb.
      cbn [mbind option_bind]. do 2 f_equal. change (take 1 (frame :: frames)) with [frame].
      rewrite (history_cons _ _ _ _ _ Hw). reflexivity.
    + rewrite (Hout k g c p _ b Hk H1 Hb). do 2 f_equal.
      change (take (S (S k)) (frame :: frames)) with (frame :: take (S k) frames).
      rewrite (history_cons _ _ _ _ _ Hw). reflexivity.
Qed.

(** ** One pixel *)

Lemma latest_spec obs : forall m,
  latest m obs = match most_recent_finite obs with Some v => v | None => m end.
Proof.
  unfold latest, most_recent_finite.
  induction obs as [|x obs IH]; intros m; [reflexivity|].
  cbn [fold_left List.filter]. rewrite IH.
  destruct (isfinite x); [|reflexivity].
  rewrite last_cons. destruct (last (List.filter isfinite obs)); reflexivity.
Qed.

Lemma latest_snoc m obs x : isfinite x = true -> latest m (obs ++ [x]) = x.
Proof. intros Hx. unfold latest. rewrite fold_left_app. cbn. rewrite Hx. reflexivity. Qed.

Lemma most_recent_finite_Some obs v :
  most_recent_finite obs = Some v -> v ∈ obs /\ isfinite v = true.
Proof.
  unfold most_recent_finite. intros Hl. apply last_Some_elem_of in Hl.
  apply list_elem_of_In, filter_In in Hl as [Hin Hfin].
  split; [apply list_elem_of_In|]; assumption.
Qed.

Lemma first_non_nan_cases obs :
  (first_non_nan obs = nan /\ Forall (fun v => isnan v = true) obs)
  \/ (first_non_nan obs ∈ obs /\ isnan (first_non_nan obs) = false).
Proof.
  induction obs as [|x obs IH]; [left; split; [reflexivity | constructor]|].
  cbn [first_non_nan]. destruct (isnan x) eqn:Ex.
  - destruct IH as [[-> Hall] | [Hin Hn]].
    + left. split; [reflexivity | constructor; assumption].
    + right. split; [right; assumption | assumption].
  - right. split; [left | assumption].
Qed.

Lemma blend_finite m b :
  isfinite m = true -> isfinite b = true ->
  same_number (blend m b) m /\ (m <> S754_zero true -> blend m b = m).
Proof.
  unfold same_number.
  destruct m as [sm|sm| |sm mm em], b as [sb|sb| |sb mb eb]; try discriminate;
    intros _ _; try (split; [left|intros _]; reflexivity).
  - destruct sm, sb; cbn; split; try (left; reflexivity); try (intros _; reflexivity);
      try (right; split; reflexivity); congruence.
  - destruct sm, sb; cbn; split; try (left; reflexivity); try (intros _; reflexivity);
      try (right; split; reflexivity); congruence.
Qed.

Lemma blend_nan_finite b :
  valid b = true -> isfinite b = true ->
  same_number (blend nan b) b /\ (b <> S754_zero true -> blend nan b = b).
Proof.
  intros Hv Hb. unfold blend. cbn [isnan nan of_bool nan_to_num].
  rewrite (fmul_one b Hv). unfold same_number.
  destruct b as [sb|sb| |sb mb eb]; try discriminate.
  - destruct sb; cbn; split; try (left; reflexivity); try (intros _; reflexivity);
      try (right; split; reflexivity); congruence.
  - split; [left|intros _]; reflexivity.
Qed.

(** ** History of a pixel *)

Lemma history_elem frames c p v :
  v ∈ history frames c p -> exists k f, frames !! k = Some f /\ pixel f c p = Some v.
Proof.
  unfold history. intros Hv. apply list_elem_of_omap in Hv as (f & Hf & Hp).
  apply list_elem_of_lookup in Hf as [k Hk]. eauto.
Qed.

Lemma every_pixel_history P frames c p v :
  every_pixel P frames = true -> v ∈ history frames c p -> P v = true.
Proof.
  intros Hall Hv. apply history_elem in Hv as (k & f & Hk & Hp).
  eapply every_pixel_lookup; eassumption.
Qed.

Lemma history_take n frames c p v :
  v ∈ history (take n frames) c p -> v ∈ history frames c p.
Proof.
  unfold history. rewrite !list_elem_of_omap. intros (f & Hf & Hp).
  exists f. split; [|assumption]. eapply subseteq_take, Hf.
Qed.

(** ** The generator, pixel by pixel *)

Lemma fill_gaps_pixels shp frames :
  uniform shp frames ->
  exists out, _fill_gaps (frames, None) (frames, None) = (out, None)
    /\ length out = length frames
    /\ Forall (fun g => frame_shape g = shp) out
    /\ forall k f g c p x,
         frames !! k = Some f -> pixel f c p = Some x -> out !! k = Some g ->
         pixel g c p =
         Some (blend (latest nan (history (take (S k) frames) c p))
                     (first_non_nan (history frames c p))).
Proof.
  intros Hu. destruct frames as [|first rest].
  - exists []. repeat split; [constructor|]. intros k f g c p x Hk. discriminate.
  - pose proof Hu as Hu0. apply Forall_cons in Hu0 as [Hfirst Hrest].
    destruct (pass1_baseline shp rest first Hfirst Hrest) as (fo & Hp1 & Hsfo & Hfo).
    unfold _fill_gaps. cbn [fst snd]. rewrite Hp1.
    destruct (pass2_pixels shp fo Hsfo (first :: rest)
                (map (map (fun x => fmul x nan)) fo)) as (out & Hp2 & Hlen & Hshape & Hout);
      [rewrite frame_shape_map; assumption | assumption |].
    exists out. split; [assumption|]. split; [assumption|]. split; [assumption|].
    intros k f g c p x Hk Hx Hg.
    assert (Hsf : frame_shape f = shp).
    { unfold uniform in Hu. rewrite Forall_forall in Hu. apply Hu.
      eapply list_elem_of_lookup_2, Hk. }
    destruct (pixel_same_shape f first c p x) as [v Hv]; [congruence | assumption |].
    pose proof (Hfo c p v Hv) as Hb. rewrite <- (history_cons _ _ _ _ _ Hv) in Hb.
    apply (Hout k g c p nan _ Hg); [|assumption].
    rewrite pixel_map, Hb. cbn. rewrite fmul_nan. reflexivity.
Qed.

Lemma first_non_nan_all_nan obs :
  Forall (fun v => isnan v = true) obs -> first_non_nan obs = nan.
Proof.
  intros Hall. destruct (first_non_nan_cases obs) as [[-> _] | [Hin Hn]]; [reflexivity|].
  rewrite Forall_forall in Hall. rewrite (Hall _ Hin) in Hn. discriminate.
Qed.

Lemma isnan_not_finite x : isnan x = true -> isfinite x = false.
Proof. destruct x; cbn; congruence. Qed.

Lemma finite_or_nan_not_nan x :
  finite_or_nan x = true -> isnan x = false -> isfinite x = true.
Proof. unfold finite_or_nan. intros H Hn. rewrite Hn in H. exact H. Qed.

(** C2, as the code has it.  For two cursors over the same stream of
    equally shaped frames whose pixels are binary64 values, finite or NaN,
    every emitted
    pixel is, as a number: the most recent finite observation the second
    cursor has seen where there is one; otherwise the baseline of the first
    loop (the first observation of the pixel that is not NaN) where that is
    finite; otherwise NaN.  A pixel that is NaN at every time point is NaN,
    not zero, in every emitted frame. *)
Theorem fill_gaps_fill_rule (shp : list nat) (frames : list (list (list float))) :
  uniform shp frames ->
  every_pixel valid frames = true ->
  every_pixel finite_or_nan frames = true ->
  exists out, _fill_gaps (frames, None) (frames, None) = (out, None)
    /\ length out = length frames
    /\ (forall first rest, frames = first :: rest ->
          exists first_obs, pass1 first rest None = Ok first_obs
            /\ forall c p v, pixel first c p = Some v ->
                 pixel first_obs c p = Some (first_non_nan (history frames c p)))
    /\ forall k f g c p x,
         frames !! k = Some f -> pixel f c p = Some x -> out !! k = Some g ->
         exists y, pixel g c p = Some y
           /\ same_number y (code_fill (history (take (S k) frames) c p)
                                       (first_non_nan (history frames c p)))
           /\ (Forall (fun v => isnan v = true) (history frames c p) -> y = nan).
Proof.
  intros Hu Hvalid Hfn.
  destruct (fill_gaps_pixels shp frames Hu) as (out & Hrun & Hlen & _ & Hout).
  exists out. split; [assumption|]. split; [assumption|]. split.
  { intros first rest ->. apply Forall_cons in Hu as [Hfirst Hrest].
    destruct (pass1_baseline shp rest first Hfirst Hrest) as (fo & Hp1 & _ & Hfo).
    exists fo. split; [assumption|]. intros c p v Hv.
    rewrite (history_cons _ _ _ _ _ Hv). apply Hfo, Hv. }
  intros k f g c p x Hk Hx Hg. eexists. split; [eapply Hout; eassumption|].
  set (obs := history (take (S k) frames) c p).
  set (b := first_non_nan (history frames c p)).
  rewrite latest_spec. unfold code_fill.
  assert (Hb : (b = nan /\ Forall (fun v => isnan v = true) (history frames c p))
               \/ (valid b = true /\ isfinite b = true)).
  { destruct (first_non_nan_cases (history frames c p)) as [[E Hall] | [Hin Hn]].
    - left. split; assumption.
    - right. split; [eapply every_pixel_history; eassumption|].
      apply finite_or_nan_not_nan; [|assumption].
      eapply every_pixel_history; eassumption. }
  destruct (most_recent_finite obs) as [v|] eqn:Emr.
  - apply most_recent_finite_Some in Emr as [Hin Hfin].
    apply history_take in Hin.
    destruct Hb as [[_ Hall] | [_ Hbfin]].
    + rewrite Forall_forall in Hall. apply Hall, isnan_not_finite in Hin. congruence.
    + split; [apply blend_finite; assumption|].
      intros Hall. rewrite Forall_forall in Hall.
      apply Hall, isnan_not_finite in Hin. congruence.
  - destruct Hb as [[Eb Hall] | [Hbv Hbfin]].
    + rewrite Eb. cbn [isfinite nan]. split; [left; reflexivity|].
      intros _. reflexivity.
    + rewrite Hbfin. split; [apply blend_nan_finite; assumption|].
      intros Hall. unfold b. rewrite (first_non_nan_all_nan _ Hall). reflexivity.
Qed.

Lemma frame_ext (f : list (list float)) : forall g,
  frame_shape g = frame_shape f ->
  (forall c p x, pixel f c p = Some x -> pixel g c p = Some x) ->
  g = f.
Proof.
  unfold frame_shape.
  induction f as [|ch f IH]; intros [|ch' g] Hs Hp; cbn in Hs; try discriminate;
    [reflexivity|].
  injection Hs as Hl Hs. f_equal.
  - apply (list_eq_same_length _ _ (length ch)); [reflexivity | assumption|].
    intros i x y Hi Hx Hy. pose proof (Hp 0 i y Hy) as Hg. cbn in Hg. congruence.
  - apply IH; [assumption|]. intros c p x Hx. apply (Hp (S c) p x Hx).
Qed.

(** C7, as the code has it.  On a stream of equally shaped frames whose
    pixels are all finite, the gap filler emits as many frames, of the same
    shape and in the same order, every pixel equal as a number to the input
    pixel and identical to it unless the input pixel is a negative zero
    (which the blending addition may turn into a positive zero); without
    negative zeros the emitted frames are the input frames. *)
Theorem fill_gaps_all_finite (shp : list nat) (frames : list (list (list float))) :
  uniform shp frames ->
  every_pixel isfinite frames = true ->
  exists out, _fill_gaps (frames, None) (frames, None) = (out, None)
    /\ length out = length frames
    /\ Forall (fun g => frame_shape g = shp) out
    /\ (forall k f g c p x,
          frames !! k = Some f -> out !! k = Some g -> pixel f c p = Some x ->
          exists y, pixel g c p = Some y /\ same_number y x
                    /\ (x <> S754_zero true -> y = x))
    /\ (every_pixel not_negative_zero frames = true -> out = frames).
Proof.
  intros Hu Hfin.
  destruct (fill_gaps_pixels shp frames Hu) as (out & Hrun & Hlen & Hshape & Hout).
  exists out. split; [assumption|]. split; [assumption|]. split; [assumption|].
  assert (Hpix : forall k f g c p x,
            frames !! k = Some f -> out !! k = Some g -> pixel f c p = Some x ->
            exists y, pixel g c p = Some y /\ same_number y x
                      /\ (x <> S754_zero true -> y = x)).
  { intros k f g c p x Hk Hg Hx. eexists. split; [eapply Hout; eassumption|].
    rewrite (history_take_S _ _ _ _ _ _ Hk Hx).
    assert (Hxf : isfinite x = true) by (eapply every_pixel_lookup; eassumption).
    rewrite (latest_snoc _ _ _ Hxf).
    assert (Hb : isfinite (first_non_nan (history frames c p)) = true).
    { destruct (first_non_nan_cases (history frames c p)) as [[_ Hall] | [Hin _]].
      - rewrite Forall_forall in Hall.
        assert (Hin : x ∈ history frames c p).
        { unfold history. apply list_elem_of_omap. exists f.
          split; [eapply list_elem_of_lookup_2, Hk | assumption]. }
        apply Hall, isnan_not_finite in Hin. congruence.
      - eapply every_pixel_history; eassumption. }
    apply blend_finite; assumption. }
  split; [exact Hpix|].
  intros Hnz. apply (list_eq_same_length _ _ (length frames)); [reflexivity | assumption|].
  intros k g f Hklt Hg Hk. apply frame_ext.
  - unfold uniform in Hu. rewrite Forall_forall in Hshape, Hu.
    rewrite (Hshape g) by (eapply list_elem_of_lookup_2, Hg).
    rewrite (Hu f) by (eapply list_elem_of_lookup_2, Hk). reflexivity.
  - intros c p x Hx. destruct (Hpix k f g c p x Hk Hg Hx) as (y & Hy & _ & Heq).
    rewrite Hy, Heq; [reflexivity|].
    pose proof (every_pixel_lookup _ _ _ _ _ _ _ Hnz Hk Hx) as Hn.
    intros ->. discriminate.
Qed.

(** The pixel (0, 0) of [Demo.gappy] is NaN at every time point: it is NaN
    in every emitted frame, where the fill rule of the specification gives
    zero. *)
Lemma fill_gaps_never_observed_is_nan :
  Forall (fun v => isnan v = true) (history Demo.gappy 0 0)
  /\ _fill_gaps (Demo.gappy, None) (Demo.gappy, None)
     = ([[[nan; Demo.one]]; [[nan; Demo.one]]; [[nan; Demo.seven]]], None)
  /\ spec_fill (history (take 1 Demo.gappy) 0 0)
               (first_non_nan (history Demo.gappy 0 0)) = fzero
  /\ nan <> fzero
  /\ isfinite nan = false.
Proof.
  split; [repeat constructor|]. split; [reflexivity|]. split; [reflexivity|].
  split; [discriminate | reflexivity].
Qed.

(** Why the rule is stated for pixels that are finite or NaN: an infinity
    enters the baseline, is emitted while nothing finite has been seen, and
    turns the later finite observation into NaN (0.0 * inf). *)
Lemma fill_gaps_infinity :
  _fill_gaps (Demo.with_infinity, None) (Demo.with_infinity, None)
  = ([[[S754_infinity false]]; [[nan]]], None).
Proof. reflexivity. Qed.

Lemma fill_gaps_fill_rule_witness :
  exists out, _fill_gaps (Demo.gappy, None) (Demo.gappy, None) = (out, None)
    /\ length out = length Demo.gappy
    /\ (forall first rest, Demo.gappy = first :: rest ->
          exists first_obs, pass1 first rest None = Ok first_obs
            /\ forall c p v, pixel first c p = Some v ->
                 pixel first_obs c p = Some (first_non_nan (history Demo.gappy c p)))
    /\ forall k f g c p x,
         Demo.gappy !! k = Some f -> pixel f c p = Some x -> out !! k = Some g ->
         exists y, pixel g c p = Some y
           /\ same_number y (code_fill (history (take (S k) Demo.gappy) c p)
                                       (first_non_nan (history Demo.gappy c p)))
           /\ (Forall (fun v => isnan v = true) (history Demo.gappy c p) -> y = nan).
Proof.
  apply (fill_gaps_fill_rule [2] Demo.gappy).
  - repeat constructor.
  - reflexivity.
  - reflexivity.
Defined.

(** [Demo.signed_zero] is all finite and is not passed through unchanged:
    its negative zero comes out as a positive zero. *)
Lemma fill_gaps_changes_negative_zero :
  every_pixel isfinite Demo.signed_zero = true
  /\ _fill_gaps (Demo.signed_zero, None) (Demo.signed_zero, None)
     = ([[[Demo.one]]; [[S754_zero false]]], None)
  /\ fst (_fill_gaps (Demo.signed_zero, None) (Demo.signed_zero, None))
     <> Demo.signed_zero.
Proof.
  split; [reflexivity|]. split; [reflexivity|]. discriminate.
Qed.

Lemma fill_gaps_all_finite_witness :
  exists out, _fill_gaps (Demo.steady, None) (Demo.steady, None) = (out, None)
    /\ length out = length Demo.steady
    /\ Forall (fun g => frame_shape g = [2]) out
    /\ (forall k f g c p x,
          Demo.steady !! k = Some f -> out !! k = Some g -> pixel f c p = Some x ->
          exists y, pixel g c p = Some y /\ same_number y x
                    /\ (x <> S754_zero true -> y = x))
    /\ (every_pixel not_negative_zero Demo.steady = true -> out = Demo.steady).
Proof.
  apply (fill_gaps_all_finite [2] Demo.steady).
  - repeat constructor.
  - reflexivity.
Defined.

End GapFillerFacts.

(* ===================================================================== *)
(** * Generators, ranges and positions                                    *)
(* ===================================================================== *)

Lemma yield_each_length {A} (f : Z -> result A) ts :
  snd (yield_each f ts) = None -> length (fst (yield_each f ts)) = length ts.
Proof.
  induction ts as [|t ts IH]; cbn [yield_each]; [reflexivity|].
  destruct (f t) as [x|e]; [|discriminate].
  destruct (yield_each f ts) as [xs st]. cbn [fst snd] in *.
  intros Hst. cbn [length]. f_equal. apply IH, Hst.
Qed.

Lemma yield_each_ext_in {A} (f g : Z -> result A) ts :
  (forall t, t ∈ ts -> f t = g t) -> yield_each f ts = yield_each g ts.
Proof.
  induction ts as [|t ts IH]; intros Hfg; cbn [yield_each]; [reflexivity|].
  rewrite (Hfg t) by left. rewrite IH; [reflexivity|].
  intros t' Ht'. apply Hfg. right. exact Ht'.
Qed.

Lemma elem_of_range (n : nat) (t : Z) : t ∈ range n <-> 0 <= t < Z.of_nat n.
Proof.
  unfold range. rewrite list_elem_of_fmap. split.
  - intros (i & -> & Hi). apply elem_of_seq in Hi. lia.
  - intros Ht. exists (Z.to_nat t). split; [lia|]. apply elem_of_seq. lia.
Qed.

Lemma length_range (n : nat) : length (range n) = n.
Proof. unfold range. rewrite length_map, length_seq. reflexivity. Qed.

Lemma lookup_range (n i : nat) : (i < n)%nat -> range n !! i = Some (Z.of_nat i).
Proof.
  intros Hi. unfold range. rewrite list_lookup_fmap, lookup_seq_lt by assumption.
  reflexivity.
Qed.

Lemma py_index_Ok {A} (l : list A) (i : nat) (x : A) :
  l !! i = Some x -> py_index l (Z.of_nat i) = Ok x.
Proof.
  intros Hl. unfold py_index.
  pose proof (lookup_lt_Some _ _ _ Hl) as Hlt.
  destruct (Z.of_nat i <? 0) eqn:E; [apply Z.ltb_lt in E; lia|].
  replace ((0 <=? Z.of_nat i) && (Z.of_nat i <? Z.of_nat (length l))) with true.
  - rewrite Nat2Z.id, Hl. reflexivity.
  - symmetry. apply andb_true_iff. split; [apply Z.leb_le | apply Z.ltb_lt]; lia.
Qed.

Lemma py_index_elem {A} (l : list A) k x : py_index l k = Ok x -> x ∈ l.
Proof.
  unfold py_index. destruct (_ && _); [|discriminate].
  destruct (l !! _) eqn:E; [|discriminate]. intros [= <-].
  eapply list_elem_of_lookup_2, E.
Qed.

Lemma py_index_cons_S {A} (x : A) (l : list A) (k : Z) :
  0 < k -> py_index (x :: l) k = py_index l (k - 1).
Proof.
  intros Hk. unfold py_index. cbn [length].
  destruct (k <? 0) eqn:E; [apply Z.ltb_lt in E; lia|].
  destruct (k - 1 <? 0) eqn:E1; [apply Z.ltb_lt in E1; lia|].
  replace (Z.to_nat k) with (S (Z.to_nat (k - 1))) by lia. cbn [lookup list_lookup].
  destruct ((0 <=? k) && (k <? Z.of_nat (S (length l)))) eqn:E2;
    destruct ((0 <=? k - 1) && (k - 1 <? Z.of_nat (length l))) eqn:E3; try reflexivity.
  - apply andb_true_iff in E2 as [_ E2]. apply Z.ltb_lt in E2.
    apply andb_false_iff in E3 as [E3 | E3];
      [apply Z.leb_gt in E3 | apply Z.ltb_ge in E3]; lia.
  - apply andb_true_iff in E3 as [_ E3]. apply Z.ltb_lt in E3.
    apply andb_false_iff in E2 as [E2 | E2];
      [apply Z.leb_gt in E2 | apply Z.ltb_ge in E2]; lia.
Qed.

(** [for t in ts: yield f(t)] is [for k in range(len(ts)): yield f(ts[k])]. *)
Lemma yield_each_by_position {A} (f : Z -> result A) ts :
  yield_each f ts =
  yield_each (fun k => t ← py_index ts k; f t) (range (length ts)).
Proof.
  induction ts as [|t ts IH] using rev_ind; [reflexivity|].
  rewrite length_app. cbn [length]. rewrite Nat.add_1_r, range_S.
  rewrite !yield_each_app. cbn [yield_each].
  rewrite IH.
  rewrite (yield_each_ext_in
             (fun k => t0 ← py_index (ts ++ [t]) k; f t0)
             (fun k => t0 ← py_index ts k; f t0) (range (length ts))).
  2:{ intros k Hk. apply elem_of_range in Hk. unfold py_index.
      rewrite length_app. cbn [length].
      destruct (k <? 0) eqn:E; [apply Z.ltb_lt in E; lia|].
      replace ((0 <=? k) && (k <? Z.of_nat (length ts + 1))) with true
        by (symmetry; apply andb_true_iff; split; [apply Z.leb_le | apply Z.ltb_lt]; lia).
      replace ((0 <=? k) && (k <? Z.of_nat (length ts))) with true
        by (symmetry; apply andb_true_iff; split; [apply Z.leb_le | apply Z.ltb_lt]; lia).
      rewrite lookup_app_l by lia. reflexivity. }
  destruct (yield_each _ (range (length ts))) as [xs [e|]]; [reflexivity|].
  assert (Hlast : py_index (ts ++ [t]) (Z.of_nat (length ts)) = Ok t).
  { apply py_index_Ok. rewrite lookup_app_r by lia. rewrite Nat.sub_diag. reflexivity. }
  rewrite Hlast. reflexivity.
Qed.

(** What a slice of [range(n)] holds. *)
Lemma list_getitem_range_elem (n : nat) (sel : selector) (ts : list Z) :
  list_getitem (range n) sel = Ok (Many ts) ->
  forall t, t ∈ ts -> 0 <= t < Z.of_nat n.
Proof.
  destruct sel as [|i|a b c]; cbn [list_getitem]; [discriminate| |].
  - destruct (py_index (range n) i); discriminate.
  - destruct (slice_indices _ a b c) as [[[b0 st] k]|]; [|discriminate].
    cbn [mbind result_bind]. intros [= <-] t Ht.
    apply list_elem_of_omap in Ht as (p & _ & Hp).
    apply elem_of_range. eapply list_elem_of_lookup_2, Hp.
Qed.

Lemma reformat_not_SInt (sel : selector) (i : Z) : reformat sel <> SInt i.
Proof. destruct sel; discriminate. Qed.

Lemma reformat_idempotent (sel : selector) : reformat (reformat sel) = reformat sel.
Proof. destruct sel; reflexivity. Qed.

Lemma forward_reformat (sel : selector) : forward sel = true ->
  exists a b st, reformat sel = SSlice a b st /\ 0 < default 1 st.
Proof.
  destruct sel as [|i|a b st]; cbn; [discriminate| |].
  - intros _. exists (Some i), (Some (i + 1)), None. split; [reflexivity | cbn; lia].
  - intros Hst. apply Z.ltb_lt in Hst. eauto.
Qed.

(** The slice [slice(i, i+1)] of [range(n)]. *)
Lemma slice_positions_one b st : slice_positions b st 1 = [b].
Proof. unfold slice_positions. cbn. f_equal. lia. Qed.

Lemma range_single (n : nat) (i : Z) :
  0 <= i < Z.of_nat n ->
  list_getitem (range n) (SSlice (Some i) (Some (i + 1)) None) = Ok (Many [i]).
Proof.
  intros Hi. cbn [list_getitem]. rewrite length_range, (slice_indices_single n i Hi).
  cbn [mbind result_bind]. rewrite slice_positions_one. cbn.
  rewrite lookup_range by lia. cbn. do 3 f_equal. lia.
Qed.

Lemma range_empty_slice (n : nat) (i : Z) :
  i = -1 \/ Z.of_nat n <= i ->
  list_getitem (range n) (SSlice (Some i) (Some (i + 1)) None) = Ok (Many []).
Proof.
  intros Hi. cbn [list_getitem]. rewrite length_range.
  unfold slice_indices, slice_clamp, slice_length. cbn [default].
  change (1 =? 0) with false. change (1 <? 0) with false. cbv iota.
  destruct Hi as [-> | Hi].
  - change (-1 + 1) with 0. change (0 <? 0) with false. change (-1 <? 0) with true.
    cbv iota.
    destruct (Z.of_nat n <=? 0) eqn:E1.
    + apply Z.leb_le in E1. assert (n = 0%nat) as -> by lia. reflexivity.
    + apply Z.leb_gt in E1.
      destruct (-1 + Z.of_nat n <? 0) eqn:E2; [apply Z.ltb_lt in E2; lia|].
      destruct (-1 + Z.of_nat n <? 0) eqn:E3; [discriminate|]. reflexivity.
  - destruct (i <? 0) eqn:E1; [apply Z.ltb_lt in E1; lia|].
    destruct (Z.of_nat n <=? i) eqn:E2; [|apply Z.leb_gt in E2; lia].
    destruct (i + 1 <? 0) eqn:E3; [apply Z.ltb_lt in E3; lia|].
    destruct (Z.of_nat n <=? i + 1) eqn:E4; [|apply Z.leb_gt in E4; lia].
    rewrite Z.ltb_irrefl. reflexivity.
Qed.

(** ** Increasing times *)

Lemma slice_positions_sorted (b st : Z) (k : nat) :
  0 < st -> StronglySorted Z.lt (slice_positions b st k).
Proof.
  intros Hst. unfold slice_positions.
  generalize 0%nat as a. induction k as [|k IH]; intros a; cbn [seq map]; constructor.
  - apply IH.
  - apply Forall_forall. intros x Hx. apply list_elem_of_fmap in Hx as (j & -> & Hj).
    apply elem_of_seq in Hj. nia.
Qed.

Lemma slice_positions_lower (b st : Z) (k : nat) :
  0 < st -> Forall (fun p => b <= p) (slice_positions b st k).
Proof.
  intros Hst. unfold slice_positions. apply Forall_forall. intros x Hx.
  apply list_elem_of_fmap in Hx as (j & -> & Hj). nia.
Qed.

Lemma omap_range_sorted (n : nat) (ps : list Z) :
  StronglySorted Z.lt ps -> Forall (fun p => 0 <= p) ps ->
  StronglySorted Z.lt (omap (fun p => range n !! Z.to_nat p) ps)
  /\ forall x, x ∈ omap (fun p => range n !! Z.to_nat p) ps -> x ∈ ps.
Proof.
  induction 1 as [|p ps Hs IH Hp]; intros Hpos; [split; [constructor | auto]|].
  apply Forall_cons in Hpos as [Hp0 Hpos]. destruct (IH Hpos) as [IHs IHm].
  cbn [omap list_omap].
  destruct (range n !! Z.to_nat p) as [x|] eqn:Ex.
  - assert (x = p) as ->.
    { apply lookup_lt_Some in Ex as Hlt. rewrite length_range in Hlt.
      rewrite lookup_range in Ex by assumption. injection Ex as <-. lia. }
    split.
    + constructor; [assumption|]. apply Forall_forall. intros y Hy.
      rewrite Forall_forall in Hp. apply Hp, IHm, Hy.
    + intros y Hy. apply elem_of_cons in Hy as [-> | Hy]; [left | right; auto].
  - split; [assumption|]. intros y Hy. right. auto.
Qed.

Lemma slice_clamp_nonneg (n st : Z) (bound : option Z) (dp dn : Z) :
  0 < st -> 0 <= n -> 0 <= dp -> 0 <= slice_clamp n st bound dp dn.
Proof.
  intros Hst Hn Hdp. unfold slice_clamp.
  destruct (st <? 0) eqn:E; [apply Z.ltb_lt in E; lia|].
  destruct bound as [s|]; [|assumption].
  destruct (s <? 0) eqn:E1.
  - destruct (s + n <? 0) eqn:E2; [lia | apply Z.ltb_ge in E2; lia].
  - apply Z.ltb_ge in E1. destruct (n <=? s); lia.
Qed.

(** A slice of [range(n)] with a positive step is strictly increasing. *)
Lemma slice_times_increasing (n : nat) (start stop step : option Z) (ts : list Z) :
  0 < default 1 step ->
  list_getitem (range n) (SSlice start stop step) = Ok (Many ts) ->
  StronglySorted Z.lt ts.
Proof.
  intros Hst. cbn [list_getitem]. rewrite length_range. unfold slice_indices.
  destruct (default 1 step =? 0) eqn:E0; [apply Z.eqb_eq in E0; lia|].
  cbn [mbind result_bind]. intros [= <-].
  apply omap_range_sorted.
  - apply slice_positions_sorted, Hst.
  - eapply Forall_impl; [apply slice_positions_lower, Hst|]. cbn. intros p Hp.
    pose proof (slice_clamp_nonneg (Z.of_nat n) (default 1 step) start 0
                  (Z.of_nat n - 1) Hst ltac:(lia) ltac:(lia)). lia.
Qed.

(** ** [izip] and rows *)

Lemma is_full_cases (sel : selector) :
  is_full sel = true -> sel = SNone \/ sel = slice_None.
Proof.
  destruct sel as [|i|[a|] [b|] [c|]]; cbn; try discriminate; auto.
Qed.

Lemma izip_length {A B} (xs : list A) (ys : list B) :
  snd (izip xs None ys) = None
  /\ length (fst (izip xs None ys)) = Nat.min (length xs) (length ys).
Proof.
  revert ys. induction xs as [|x xs IH]; intros ys; [split; reflexivity|].
  destruct ys as [|y ys]; [split; reflexivity|]. cbn [izip].
  destruct (IH ys) as [Hst Hlen]. destruct (izip xs None ys) as [zs st].
  cbn [fst snd length] in *. split; [assumption|]. rewrite Hlen. reflexivity.
Qed.

Lemma izip_lookup {A B} (xs : list A) (st : option exn) (ys : list B) k x y :
  xs !! k = Some x -> ys !! k = Some y -> fst (izip xs st ys) !! k = Some (x, y).
Proof.
  revert ys k. induction xs as [|x0 xs IH]; intros ys k Hx Hy; [discriminate|].
  destruct ys as [|y0 ys]; [discriminate|]. cbn [izip].
  specialize (IH ys). destruct (izip xs st ys) as [zs st']. cbn [fst] in *.
  destruct k as [|k]; cbn in *.
  - congruence.
  - apply IH; assumption.
Qed.

(** Pairing the frames a loop yields with as many rows, or more. *)
Lemma izip_yield_each {A C} (g : Z -> result A) (row : nat -> C) (F : A -> C -> A)
    (n : nat) : forall a m, (n <= m)%nat ->
  (map (fun '(f, d) => F f d)
       (fst (izip (fst (yield_each g (map Z.of_nat (seq a n))))
                  (snd (yield_each g (map Z.of_nat (seq a n))))
                  (map row (seq a m)))),
   snd (izip (fst (yield_each g (map Z.of_nat (seq a n))))
             (snd (yield_each g (map Z.of_nat (seq a n))))
             (map row (seq a m))))
  = yield_each (fun t => f ← g t; Ok (F f (row (Z.to_nat t))))
               (map Z.of_nat (seq a n)).
Proof.
  induction n as [|n IH]; intros a m Hnm; [reflexivity|].
  destruct m as [|m]; [lia|]. cbn [seq map yield_each].
  destruct (g (Z.of_nat a)) as [x|e]; [|reflexivity].
  specialize (IH (S a) m ltac:(lia)).
  destruct (yield_each g (map Z.of_nat (seq (S a) n))) as [xs st].
  cbn [fst snd izip mbind result_bind] in *.
  destruct (izip xs st (map row (seq (S a) m))) as [zs st'].
  cbn [fst snd map] in *. rewrite Nat2Z.id.
  destruct (yield_each _ (map Z.of_nat (seq (S a) n))) as [ys st''].
  injection IH as -> ->. reflexivity.
Qed.

Lemma astype_id {A} (a : ndarray A) : astype (fun x => x) a = a.
Proof. destruct a. reflexivity. Qed.

(** [a[t]] is the row that iterating over [a] yields at position [t]. *)
Lemma nd_getitem_row {A} (a : ndarray A) (m : nat) (shp : list nat) (t : Z) :
  shape a = m :: shp -> 0 <= t < Z.of_nat m ->
  nd_getitem a [SInt t] = Ok (NDArray shp (fun idx => at_ a (Z.to_nat t :: idx))).
Proof.
  intros Hs Ht. unfold nd_getitem. rewrite Hs. cbn [index_plan].
  destruct (t <? 0) eqn:E; [apply Z.ltb_lt in E; lia|].
  replace ((0 <=? t) && (t <? Z.of_nat m)) with true
    by (symmetry; apply andb_true_iff; split; [apply Z.leb_le | apply Z.ltb_lt]; lia).
  reflexivity.
Qed.

Lemma nd_rows_shape {A} (a : ndarray A) m shp :
  shape a = m :: shp ->
  nd_rows a = Ok (map (fun i => NDArray shp (fun idx => at_ a (i :: idx))) (seq 0 m)).
Proof. intros Hs. unfold nd_rows. rewrite Hs. reflexivity. Qed.

(** [a[t, :, ..., :]]: the hyperslab at position [t] of the first axis. *)
Lemma nd_getitem_time_first {A} (a : ndarray A) (n : nat) (shp : list nat) (t : Z) :
  shape a = n :: shp -> 0 <= t < Z.of_nat n ->
  exists tr,
    nd_getitem a (SInt t :: replicate (length shp) slice_None)
    = Ok (NDArray shp (fun idx => at_ a (Z.to_nat t :: tr idx)))
    /\ forall idx, length idx = length shp -> tr idx = idx.
Proof.
  intros Hs Ht. destruct (index_plan_full (length shp) shp (le_n _)) as (tr & Hplan & Htr).
  exists tr. split.
  - unfold nd_getitem. rewrite Hs. cbn [index_plan].
    destruct (t <? 0) eqn:E; [apply Z.ltb_lt in E; lia|].
    replace ((0 <=? t) && (t <? Z.of_nat n)) with true
      by (symmetry; apply andb_true_iff; split; [apply Z.leb_le | apply Z.ltb_lt]; lia).
    rewrite Hplan. reflexivity.
  - intros idx Hidx. apply Htr. lia.
Qed.

Lemma nd_getitem_time_first_shape {A} (a frame : ndarray A) (n : nat) (shp : list nat)
    (t : Z) :
  shape a = n :: shp ->
  nd_getitem a (SInt t :: replicate (length shp) slice_None) = Ok frame ->
  shape frame = shp.
Proof.
  intros Hs. destruct (index_plan_full (length shp) shp (le_n _)) as (tr & Hplan & _).
  unfold nd_getitem. rewrite Hs. cbn [index_plan].
  destruct ((0 <=? _) && _); [|discriminate]. rewrite Hplan.
  cbn [mbind result_bind]. intros [= <-]. reflexivity.
Qed.

(** ** Selection sort on sorted positions *)

Lemma argmin_from_keep (l : list Z) : forall best besti pos,
  Forall (fun y => best <= y) l -> argmin_from best besti pos l = besti.
Proof.
  induction l as [|y l IH]; intros best besti pos Hall; [reflexivity|].
  apply Forall_cons in Hall as [Hy Hl]. cbn [argmin_from].
  destruct (y <? best) eqn:E; [apply Z.ltb_lt in E; lia|]. apply IH, Hl.
Qed.

Lemma StronglySorted_drop {A} (R : A -> A -> Prop) (l : list A) (i : nat) :
  StronglySorted R l -> StronglySorted R (drop i l).
Proof.
  intros Hs. revert i. induction Hs as [|x l Hs IH Hx]; intros [|i]; cbn.
  - constructor.
  - constructor.
  - constructor; assumption.
  - apply IH.
Qed.

Lemma argmin_sorted (l : list Z) (k : nat) :
  StronglySorted Z.lt l -> argmin l = Ok k -> k = 0%nat.
Proof.
  destruct l as [|x l]; [discriminate|]. intros Hs. cbn [argmin]. intros [= <-].
  apply argmin_from_keep. inversion Hs as [|? ? _ Hx]; subst.
  eapply Forall_impl; [exact Hx|]. cbn. intros y Hy. lia.
Qed.

(** On positions already in increasing order no swap is computed, and the
    loop of the code and the reordering of the specification coincide. *)
Lemma loops_agree_sorted {A} (sw : list Z) :
  StronglySorted Z.lt sw ->
  forall axes (frame : ndarray A),
    swap_loop axes sw frame = reorder_spec axes sw frame.
Proof.
  intros Hs. induction axes as [|i axes IH]; intros frame; [reflexivity|].
  cbn [swap_loop reorder_spec].
  destruct (argmin (drop i sw)) as [k|e] eqn:Ek; [|reflexivity].
  cbn [mbind result_bind].
  apply argmin_sorted in Ek; [|apply StronglySorted_drop, Hs]. subst k.
  cbn [Nat.add]. rewrite Nat.eqb_refl. apply IH.
Qed.

Lemma find_from_absent (c : ascii) (s : string) : forall pos,
  ~ In c (list_ascii_of_string s) -> find_from c s pos = -1.
Proof.
  induction s as [|a s IH]; intros pos Hnin; [reflexivity|].
  cbn [find_from]. cbn [list_ascii_of_string] in Hnin.
  destruct (Ascii.eqb a c) eqn:E.
  - apply Ascii.eqb_eq in E. subst. exfalso. apply Hnin. left. reflexivity.
  - apply IH. intros Hin. apply Hnin. right. exact Hin.
Qed.

Lemma insert_last_replicate {A} (x v : A) (k : nat) :
  <[k := v]> (replicate (S k) x) = replicate k x ++ [v].
Proof. induction k as [|k IH]; [reflexivity|]. cbn. f_equal. exact IH. Qed.

Lemma NoDup_only {A} (l : list A) (a : A) :
  NoDup l -> (forall x, x ∈ l <-> x = a) -> l = [a].
Proof.
  intros Hnd Hmem. destruct l as [|y l].
  - exfalso. assert (Ha : a ∈ @nil A) by (apply Hmem; reflexivity). inversion Ha.
  - assert (y = a) as -> by (apply Hmem; left).
    apply NoDup_cons in Hnd as [Hnin Hnd]. f_equal.
    destruct l as [|z l]; [reflexivity|]. exfalso.
    assert (z = a) as -> by (apply Hmem; right; left). apply Hnin. left.
Qed.

(* ===================================================================== *)
(** * More on indexed sequences                                           *)
(* ===================================================================== *)

Lemma times_at_beyond (ts : list Z) (idx : nat) :
  (length ts <= idx)%nat -> times_at (Many ts) (Z.of_nat idx) = Raise IndexError.
Proof.
  intros Hle. cbn [times_at]. unfold py_index.
  destruct (Z.of_nat idx <? 0) eqn:E; [apply Z.ltb_lt in E; lia|].
  replace (Z.of_nat idx <? Z.of_nat (length ts)) with false
    by (symmetry; apply Z.ltb_ge; lia).
  rewrite andb_false_r. reflexivity.
Qed.

(** The sequential walk started at frame [t0] of the base with [idx] times
    already used. *)
Lemma sequential_walk_spec (ts : list Z) (sels : list selector) :
  forall (frames : list (ndarray float)) (t0 idx : nat),
  StronglySorted Z.lt (drop idx ts) ->
  Forall (fun t => Z.of_nat t0 <= t < Z.of_nat t0 + Z.of_nat (length frames))
         (drop idx ts) ->
  sequential_walk (Many ts) sels (Z.of_nat idx) (Z.of_nat t0) frames None
  = yield_each (fun t => frame ← py_index frames (t - Z.of_nat t0);
                         nd_getitem frame sels)
               (drop idx ts).
Proof.
  induction frames as [|f frames IH]; intros t0 idx Hs Hb.
  - cbn [sequential_walk]. destruct (drop idx ts) as [|t rest]; [reflexivity|].
    apply Forall_cons in Hb as [Ht _]. cbn [length] in Ht. lia.
  - cbn [sequential_walk].
    destruct (ts !! idx) as [ti|] eqn:Ei.
    + rewrite (drop_S _ _ _ Ei) in *.
      cbn [times_at]. rewrite (py_index_Ok ts idx ti Ei).
      apply Forall_cons in Hb as [Hti Hb].
      inversion Hs as [|? ? Hs' Hlt]; subst.
      assert (Htail : forall t, t ∈ drop (S idx) ts ->
                py_index (f :: frames) (t - Z.of_nat t0)
                = py_index frames (t - Z.of_nat (S t0))).
      { intros t Ht. rewrite Forall_forall in Hlt, Hb.
        specialize (Hlt t Ht). specialize (Hb t Ht).
        rewrite py_index_cons_S by lia. f_equal. lia. }
      cbn [yield_each].
      destruct (Z.of_nat t0 =? ti) eqn:Et.
      * apply Z.eqb_eq in Et. subst ti. rewrite Z.sub_diag.
        rewrite py_index_head. cbn [mbind result_bind].
        destruct (nd_getitem f sels) as [g|e]; [|reflexivity].
        replace (Z.of_nat idx + 1) with (Z.of_nat (S idx)) by lia.
        replace (Z.of_nat t0 + 1) with (Z.of_nat (S t0)) by lia.
        rewrite (IH (S t0) (S idx) Hs').
        -- rewrite (yield_each_ext_in _ _ _
                      (fun t Ht => f_equal (fun r => r ≫= _) (Htail t Ht))).
           reflexivity.
        -- rewrite Forall_forall in Hlt, Hb |- *. intros t Ht.
           specialize (Hlt t Ht). specialize (Hb t Ht). cbn [length] in Hb. lia.
      * apply Z.eqb_neq in Et.
        replace (Z.of_nat t0 + 1) with (Z.of_nat (S t0)) by lia.
        rewrite (IH (S t0) idx).
        -- rewrite (drop_S _ _ _ Ei). cbn [yield_each].
           rewrite py_index_cons_S by lia.
           replace (ti - Z.of_nat t0 - 1) with (ti - Z.of_nat (S t0)) by lia.
           destruct (py_index frames (ti - Z.of_nat (S t0)) ≫= _) as [g|e]; [|reflexivity].
           rewrite (yield_each_ext_in _ _ _
                      (fun t Ht => f_equal (fun r => r ≫= _) (Htail t Ht))).
           reflexivity.
        -- rewrite (drop_S _ _ _ Ei). constructor; assumption.
        -- rewrite (drop_S _ _ _ Ei). cbn [length] in *. constructor; [lia|].
           rewrite Forall_forall in Hlt, Hb |- *. intros t Ht.
           specialize (Hlt t Ht). specialize (Hb t Ht). lia.
    + apply lookup_ge_None in Ei. rewrite (times_at_beyond ts idx Ei).
      rewrite drop_ge by assumption. reflexivity.
Qed.

Section IndexedMore.
Context `{Externals}.

(** What [__init__] stores, with the times spelled out: always a list, of
    frame indices of the base. *)
Lemma init_times (base : Seq) (indices : pyindex) (s : Seq) :
  _IndexedSequence_init base indices = Ok s ->
  exists bl ts,
    s = IndexedSequence base bl (map reformat (as_tuple indices)) (Many ts)
    /\ len base = Ok bl
    /\ (forall t, t ∈ ts -> 0 <= t < Z.of_nat bl)
    /\ len s = Ok (length ts).
Proof.
  intros Hinit.
  destruct (init_inv _ _ _ Hinit) as (bl & i0 & times & Hlen & Hi0 & Htimes & ->).
  assert (Hslice : exists ts, times = Many ts).
  { destruct times as [t0|ts]; [|eauto]. exfalso.
    destruct i0 as [|i|a b c]; cbn [list_getitem] in Htimes; [discriminate| |].
    - apply py_index_elem, list_elem_of_fmap in Hi0 as (x & Hx & _).
      symmetry in Hx. exact (reformat_not_SInt _ _ Hx).
    - destruct (slice_indices _ a b c) as [[[? ?] ?]|]; discriminate. }
  destruct Hslice as [ts ->]. exists bl, ts.
  split; [reflexivity|]. split; [assumption|]. split.
  - eapply list_getitem_range_elem, Htimes.
  - cbn [len]. rewrite Hlen. cbn [mbind result_bind]. rewrite Hi0.
    cbn [mbind result_bind]. rewrite Htimes. reflexivity.
Qed.

(** X1. What [_IndexedSequence.__init__] guarantees of the object it
    builds: the selected times are a list (never a single time) of valid
    frame indices of the base, the stored base length is [len(base)], and
    [__len__], which recomputes the selection, is the number of times;
    [_get_frame] at a position below that number fetches the base frame at
    the stored time, and at a position from that number on it raises
    [IndexError]. *)
Theorem indexed_times_valid (base : Seq) (indices : pyindex) (s : Seq) :
  _IndexedSequence_init base indices = Ok s ->
  exists bl ts,
    s = IndexedSequence base bl (map reformat (as_tuple indices)) (Many ts)
    /\ len base = Ok bl
    /\ (forall t, t ∈ ts -> 0 <= t < Z.of_nat bl)
    /\ len s = Ok (length ts)
    /\ (forall k t, ts !! k = Some t ->
          _get_frame s (Z.of_nat k)
          = (frame ← _get_frame base t;
             nd_getitem frame (tail (map reformat (as_tuple indices)))))
    /\ (forall k, (length ts <= k)%nat ->
          _get_frame s (Z.of_nat k) = Raise IndexError).
Proof.
  intros Hinit.
  destruct (init_times _ _ _ Hinit) as (bl & ts & -> & Hlen & Hvalid & Hl).
  exists bl, ts. repeat (split; [assumption || reflexivity|]). split.
  - intros k t Hk. cbn [_get_frame times_at]. rewrite (py_index_Ok ts k t Hk).
    reflexivity.
  - intros k Hk. cbn [_get_frame]. rewrite (times_at_beyond ts k Hk). reflexivity.
Qed.

(** X2. The cursor of an [_IndexedSequence] and its [_get_frame] agree:
    iterating yields [_get_frame(0)], [_get_frame(1)], ... up to the number
    of stored times, and stops with the exception of the first that
    raises. *)
Theorem indexed_iter_is_get_frame (base : Seq) (bl : nat) (sels : list selector)
    (ts : list Z) :
  iter (IndexedSequence base bl sels (Many ts))
  = yield_each (_get_frame (IndexedSequence base bl sels (Many ts)))
               (range (length ts)).
Proof.
  rewrite iter_IndexedSequence. unfold direct_walk.
  rewrite yield_each_by_position. apply yield_each_ext. intros k.
  cbn [_get_frame times_at]. reflexivity.
Qed.

(** X3. If the cursor of a sequence built by [_IndexedSequence.__init__]
    ends without an exception, it has yielded exactly [len] frames. *)
Theorem indexed_length_is_frame_count (base : Seq) (indices : pyindex) (s : Seq) :
  _IndexedSequence_init base indices = Ok s ->
  snd (iter s) = None ->
  len s = Ok (length (fst (iter s))).
Proof.
  intros Hinit Hend.
  destruct (init_times _ _ _ Hinit) as (bl & ts & -> & _ & _ & Hlen).
  rewrite Hlen. rewrite iter_IndexedSequence in *. unfold direct_walk in *.
  rewrite (yield_each_length _ _ Hend). reflexivity.
Qed.

(** X4. An integer time index [i] is stored as [slice(i, i+1)]: for
    [0 <= i < len(base)] the result is the one-frame sequence holding frame
    [i] of the base; for [i = -1] and for [i >= len(base)] it is an empty
    sequence, built without any error. *)
Theorem integer_time_index (base : Seq) (n : nat) (i : Z) :
  len base = Ok n ->
  (0 <= i < Z.of_nat n ->
     _IndexedSequence_init base (Bare (SInt i))
       = Ok (IndexedSequence base n [SSlice (Some i) (Some (i + 1)) None] (Many [i]))
     /\ len (IndexedSequence base n [SSlice (Some i) (Some (i + 1)) None] (Many [i]))
        = Ok 1%nat
     /\ iter (IndexedSequence base n [SSlice (Some i) (Some (i + 1)) None] (Many [i]))
        = yield_each (_get_frame base) [i])
  /\ (i = -1 \/ Z.of_nat n <= i ->
     _IndexedSequence_init base (Bare (SInt i))
       = Ok (IndexedSequence base n [SSlice (Some i) (Some (i + 1)) None] (Many []))
     /\ len (IndexedSequence base n [SSlice (Some i) (Some (i + 1)) None] (Many []))
        = Ok 0%nat
     /\ iter (IndexedSequence base n [SSlice (Some i) (Some (i + 1)) None] (Many []))
        = ([], None)).
Proof.
  intros Hlen. split; intros Hi.
  - pose proof (range_single n i Hi) as Hts. split; [|split].
    + unfold _IndexedSequence_init. rewrite Hlen.
      cbn [mbind result_bind as_tuple map reformat]. rewrite py_index_head.
      cbn [mbind result_bind]. rewrite Hts. reflexivity.
    + apply (len_IndexedSequence base n _ [] _ n [i] Hlen Hts).
    + rewrite iter_IndexedSequence. unfold direct_walk. cbn [tail].
      apply yield_each_ext. intros t.
      destruct (_get_frame base t) as [g|e]; cbn; [apply nd_getitem_nil | reflexivity].
  - pose proof (range_empty_slice n i Hi) as Hts. split; [|split].
    + unfold _IndexedSequence_init. rewrite Hlen.
      cbn [mbind result_bind as_tuple map reformat]. rewrite py_index_head.
      cbn [mbind result_bind]. rewrite Hts. reflexivity.
    + apply (len_IndexedSequence base n _ [] _ n [] Hlen Hts).
    + rewrite iter_IndexedSequence. reflexivity.
Qed.

(** X5. A slice of a slice: the times of the outer sequence are positions
    in the time list of the inner one, so [_get_frame] of the outer never
    runs off that list; it fetches the base frame at the composed time and
    applies the inner selectors, then the outer ones. *)
Theorem slice_of_slice (base : Seq) (idx1 idx2 : pyindex) (s1 s2 : Seq) :
  _IndexedSequence_init base idx1 = Ok s1 ->
  _IndexedSequence_init s1 idx2 = Ok s2 ->
  exists bl1 sels1 ts1 bl2 sels2 ts2,
    s1 = IndexedSequence base bl1 sels1 (Many ts1)
    /\ s2 = IndexedSequence s1 bl2 sels2 (Many ts2)
    /\ forall k t2, ts2 !! k = Some t2 ->
         exists t1, ts1 !! Z.to_nat t2 = Some t1
           /\ 0 <= t1 < Z.of_nat bl1
           /\ _get_frame s2 (Z.of_nat k)
              = (frame ← _get_frame base t1;
                 frame1 ← nd_getitem frame (tail sels1);
                 nd_getitem frame1 (tail sels2)).
Proof.
  intros H1 H2.
  destruct (init_times _ _ _ H1) as (bl1 & ts1 & -> & Hb1 & Hv1 & Hl1).
  destruct (init_times _ _ _ H2) as (bl2 & ts2 & -> & Hb2 & Hv2 & Hl2).
  exists bl1, (map reformat (as_tuple idx1)), ts1,
         bl2, (map reformat (as_tuple idx2)), ts2.
  split; [reflexivity|]. split; [reflexivity|].
  intros k t2 Hk.
  assert (Hbl2 : bl2 = length ts1) by congruence.
  assert (Ht2 : 0 <= t2 < Z.of_nat (length ts1)).
  { rewrite <- Hbl2. apply Hv2. eapply list_elem_of_lookup_2, Hk. }
  destruct (lookup_lt_is_Some_2 ts1 (Z.to_nat t2)) as [t1 Ht1]; [lia|].
  exists t1. split; [assumption|]. split.
  { apply Hv1. eapply list_elem_of_lookup_2, Ht1. }
  cbn [_get_frame times_at]. rewrite (py_index_Ok ts2 k t2 Hk).
  cbn [mbind result_bind].
  replace t2 with (Z.of_nat (Z.to_nat t2)) at 1 by lia.
  rewrite (py_index_Ok ts1 _ t1 Ht1). cbn [mbind result_bind].
  destruct (_get_frame base t1); reflexivity.
Qed.

(** X6. Frames of one shape stay frames of one shape: whether a frame can
    be indexed by the stored selectors, and the shape of the result, depend
    on the shape of the frame only, so all frames an [_IndexedSequence]
    returns or yields over such a base have one shape. *)
Theorem indexed_frames_one_shape (base : Seq) (bl : nat) (sels : list selector)
    (times : item Z) (shp : list nat) :
  (forall t g, _get_frame base t = Ok g -> shape g = shp) ->
  exists shp',
    (forall t f, _get_frame (IndexedSequence base bl sels times) t = Ok f ->
                 shape f = shp')
    /\ (forall k f, fst (iter (IndexedSequence base bl sels times)) !! k = Some f ->
                    shape f = shp').
Proof.
  intros Hbase.
  exists (match index_plan (tail sels) shp with Ok (shp', _) => shp' | Raise _ => [] end).
  assert (Hnd : forall g f : ndarray float, shape g = shp ->
            nd_getitem g (tail sels) = Ok f ->
            shape f = match index_plan (tail sels) shp with
                      | Ok (shp', _) => shp' | Raise _ => [] end).
  { intros g f Hg. unfold nd_getitem. rewrite Hg.
    destruct (index_plan (tail sels) shp) as [[shp' tr]|]; [|discriminate].
    cbn. intros [= <-]. reflexivity. }
  split.
  - intros t f. cbn [_get_frame].
    destruct (times_at times t) as [t'|]; [|discriminate]. cbn [mbind result_bind].
    destruct (_get_frame base t') as [g|] eqn:Eg; [|discriminate].
    cbn [mbind result_bind]. apply Hnd. eapply Hbase, Eg.
  - intros k f. rewrite iter_IndexedSequence. unfold direct_walk.
    destruct times as [t0|ts]; [cbn; discriminate|].
    intros Hk. apply yield_each_lookup in Hk as (t & _ & Hf).
    destruct (_get_frame base t) as [g|] eqn:Eg; [|discriminate].
    cbn [mbind result_bind] in Hf. eapply Hnd; [|exact Hf]. eapply Hbase, Eg.
Qed.

(** X7. With a forward time selector (an integer, or a slice with a
    positive or omitted step) the times an [_IndexedSequence] stores are
    strictly increasing frame indices of the base. *)
Theorem indexed_times_increasing (base : Seq) (indices : pyindex) (s : Seq)
    (sel : selector) (rest : list selector) :
  as_tuple indices = sel :: rest ->
  forward sel = true ->
  _IndexedSequence_init base indices = Ok s ->
  exists bl ts,
    s = IndexedSequence base bl (map reformat (sel :: rest)) (Many ts)
    /\ StronglySorted Z.lt ts
    /\ forall t, t ∈ ts -> 0 <= t < Z.of_nat bl.
Proof.
  intros Htuple Hfwd Hinit.
  destruct (init_inv _ _ _ Hinit) as (bl & i0 & times & Hlen & Hi0 & Htimes & ->).
  rewrite Htuple in *. cbn [map] in Hi0. rewrite py_index_head in Hi0.
  injection Hi0 as <-.
  destruct (forward_reformat sel Hfwd) as (a & b & st & Hsel & Hst).
  rewrite Hsel in Htimes.
  destruct times as [t0|ts].
  { cbn [list_getitem] in Htimes.
    destruct (slice_indices _ a b st) as [[[? ?] ?]|]; discriminate. }
  exists bl, ts. split; [reflexivity|]. split.
  - eapply slice_times_increasing; eassumption.
  - eapply list_getitem_range_elem, Htimes.
Qed.

(** X8. The sequential path of [_IndexedSequence.__iter__] (walk the
    frames of the base once, yield those whose position is the next
    selected time, stop when the times are used up) yields, for strictly
    increasing times inside the base, exactly what picking the frames by
    index yields, and ends the same way. *)
Theorem sequential_path_agrees (ts : list Z) (sels : list selector)
    (frames : list (ndarray float)) :
  StronglySorted Z.lt ts ->
  (forall t, t ∈ ts -> 0 <= t < Z.of_nat (length frames)) ->
  sequential_walk (Many ts) sels 0 0 frames None
  = yield_each (fun t => frame ← py_index frames t; nd_getitem frame sels) ts.
Proof.
  intros Hs Hb.
  pose proof (sequential_walk_spec ts sels frames 0 0) as Hw.
  change (Z.of_nat 0) with 0 in Hw. change (drop 0 ts) with ts in Hw. rewrite Hw.
  - apply yield_each_ext. intros t. rewrite Z.sub_0_r. reflexivity.
  - assumption.
  - apply Forall_forall. intros t Ht. specialize (Hb t Ht). lia.
Qed.

(** X9. The indices an [_IndexedSequence] stores are already normalised:
    building an [_IndexedSequence] over the same base from the stored
    indices gives the same object, with the same base length, indices and
    times. *)
Theorem indexed_rebuild (base : Seq) (indices : pyindex) (bl : nat)
    (sels : list selector) (times : item Z) :
  _IndexedSequence_init base indices = Ok (IndexedSequence base bl sels times) ->
  _IndexedSequence_init base (Tuple sels) = Ok (IndexedSequence base bl sels times).
Proof.
  intros Hinit.
  destruct (init_inv _ _ _ Hinit) as (bl' & i0 & times' & Hlen & Hi0 & Htimes & Heq).
  injection Heq as -> -> ->.
  unfold _IndexedSequence_init. rewrite Hlen. cbn [mbind result_bind as_tuple].
  rewrite map_map.
  rewrite (map_ext (fun x => reformat (reformat x)) reformat reformat_idempotent).
  rewrite Hi0. cbn [mbind result_bind]. rewrite Htimes. reflexivity.
Qed.

End IndexedMore.

Lemma indexed_times_valid_witness :
  exists bl ts,
    Samples.inner
    = IndexedSequence Demo.base20 bl (map reformat (as_tuple (Bare Demo.s2_5))) (Many ts)
    /\ len Demo.base20 = Ok bl
    /\ (forall t, t ∈ ts -> 0 <= t < Z.of_nat bl)
    /\ len Samples.inner = Ok (length ts)
    /\ (forall k t, ts !! k = Some t ->
          _get_frame Samples.inner (Z.of_nat k)
          = (frame ← _get_frame Demo.base20 t;
             nd_getitem frame (tail (map reformat (as_tuple (Bare Demo.s2_5))))))
    /\ (forall k, (length ts <= k)%nat ->
          _get_frame Samples.inner (Z.of_nat k) = Raise IndexError).
Proof.
  apply (@indexed_times_valid Demo.externals Demo.base20 (Bare Demo.s2_5)).
  reflexivity.
Defined.

Lemma indexed_length_is_frame_count_witness :
  len Samples.inner = Ok (length (fst (iter Samples.inner))).
Proof.
  apply (@indexed_length_is_frame_count Demo.externals Demo.base20 (Bare Demo.s2_5));
    reflexivity.
Defined.

Lemma integer_time_index_witness :
  _IndexedSequence_init Demo.base10 (Bare (SInt 3))
  = Ok (IndexedSequence Demo.base10 10 [SSlice (Some 3) (Some (3 + 1)) None] (Many [3]))
  /\ _IndexedSequence_init Demo.base10 (Bare (SInt 10))
     = Ok (IndexedSequence Demo.base10 10 [SSlice (Some 10) (Some (10 + 1)) None]
             (Many [])).
Proof.
  split.
  - apply (proj1 (@integer_time_index Demo.externals Demo.base10 10 3 eq_refl)). lia.
  - apply (proj2 (@integer_time_index Demo.externals Demo.base10 10 10 eq_refl)). lia.
Defined.

Lemma slice_of_slice_witness :
  exists bl1 sels1 ts1 bl2 sels2 ts2,
    Samples.inner = IndexedSequence Demo.base20 bl1 sels1 (Many ts1)
    /\ Samples.outer = IndexedSequence Samples.inner bl2 sels2 (Many ts2)
    /\ forall k t2, ts2 !! k = Some t2 ->
         exists t1, ts1 !! Z.to_nat t2 = Some t1
           /\ 0 <= t1 < Z.of_nat bl1
           /\ _get_frame Samples.outer (Z.of_nat k)
              = (frame ← _get_frame Demo.base20 t1;
                 frame1 ← nd_getitem frame (tail sels1);
                 nd_getitem frame1 (tail sels2)).
Proof.
  apply (@slice_of_slice Demo.externals Demo.base20 (Bare Demo.s2_5)
           (Bare Samples.from_1)); reflexivity.
Defined.

(** Every frame of a dataset stored time first has the shape of the
    remaining axes. *)
Lemma time_first_frame_shape `{Externals} (ds : ndarray dtype) (dim : string)
    (n : nat) (shp : list nat) (t : Z) (f : ndarray float) :
  find dim "t" = 0 -> shape ds = n :: shp ->
  _get_frame (Sequence_HDF5 ds dim) t = Ok f -> shape f = shp.
Proof.
  intros Hfind Hs Hf. cbn [_get_frame] in Hf.
  apply HDF5_get_frame_as_stored in Hf as (slices & frame & Hsl & Hnd & ->).
  rewrite Hfind, Hs in Hsl. cbn [length replicate] in Hsl.
  change (py_setitem (slice_None :: replicate (length shp) slice_None) 0 (SInt t))
    with (Ok (SInt t :: replicate (length shp) slice_None)) in Hsl.
  injection Hsl as <-. cbn [astype shape].
  eapply nd_getitem_time_first_shape; eassumption.
Qed.

Lemma indexed_frames_one_shape_witness :
  exists shp',
    (forall t f, _get_frame Samples.first_column t = Ok f -> shape f = shp')
    /\ (forall k f, fst (iter Samples.first_column) !! k = Some f -> shape f = shp').
Proof.
  apply (@indexed_frames_one_shape Demo.externals Demo.base10 10 _ _ [2; 3]%nat).
  intros t g Hg.
  exact (@time_first_frame_shape Demo.externals (Demo.dataset [10; 2; 3]%nat) "tyx"
           10%nat [2; 3]%nat t g eq_refl eq_refl Hg).
Defined.

Lemma indexed_times_increasing_witness :
  exists bl ts,
    Samples.inner = IndexedSequence Demo.base20 bl (map reformat [Demo.s2_5]) (Many ts)
    /\ StronglySorted Z.lt ts
    /\ forall t, t ∈ ts -> 0 <= t < Z.of_nat bl.
Proof.
  apply (@indexed_times_increasing Demo.externals Demo.base20 (Bare Demo.s2_5));
    reflexivity.
Defined.

Lemma sequential_path_agrees_witness :
  sequential_walk (Many [0; 2]) [] 0 0 Samples.three_frames None
  = yield_each (fun t => frame ← py_index Samples.three_frames t; nd_getitem frame [])
               [0; 2].
Proof.
  apply sequential_path_agrees.
  - repeat constructor.
  - intros t Ht. cbn [Samples.three_frames length].
    apply elem_of_cons in Ht as [-> | Ht]; [lia|].
    apply elem_of_cons in Ht as [-> | Ht]; [lia|].
    apply elem_of_nil in Ht. destruct Ht.
Defined.

Lemma indexed_rebuild_witness :
  _IndexedSequence_init Demo.base20
    (Tuple [SSlice (Some 3) (Some (3 + 1)) None; slice_None])
  = Ok Samples.frame_3.
Proof.
  apply (@indexed_rebuild Demo.externals Demo.base20 (Tuple [SInt 3; slice_None])).
  reflexivity.
Defined.

(* ===================================================================== *)
(** * Integer selectors on the axes of a frame                            *)
(* ===================================================================== *)





Section IntegerSelectors.
Context `{Externals}.


End IntegerSelectors.



(* ===================================================================== *)
(** * More on motion-corrected sequences                                  *)
(* ===================================================================== *)

Section MotionCorrectedMore.
Context `{Externals}.

(** X10. Slicing a motion-corrected sequence returns a sequence in one
    case only: a tuple of at most four selectors whose first is
    [slice(None)]; the result is then [_IndexedSequence(self, indices)].
    Every other index raises. *)
Theorem mcs_getitem_succeeds_only (fuel : nat) (base : Seq) (disp : ndarray Z)
    (fshape : list nat) (indices : pyindex) (r : Seq) :
  getitem (S (S fuel)) (MotionCorrectedSequence base disp fshape) indices = Some (Ok r)
  <-> exists rest,
        indices = Tuple (slice_None :: rest)
        /\ (length rest < 4)%nat
        /\ _IndexedSequence_init (MotionCorrectedSequence base disp fshape) indices
           = Ok r.
Proof.
  split.
  - destruct indices as [sel|[|times rest]]; [discriminate|discriminate|].
    destruct (is_full times) eqn:Efull.
    + apply is_full_cases in Efull as [-> | ->].
      * intros Hg. exfalso. exact (getitem_SNone_raises _ _ _ _ _ _ Hg).
      * remember (S fuel) as fuel'. cbn [getitem py_len as_tuple].
        destruct (5 <? length (slice_None :: rest))%nat eqn:E5; [discriminate|].
        rewrite py_index_head. cbn [is_full slice_None negb].
        destruct (length (slice_None :: rest) =? 5)%nat eqn:E;
          [apply Nat.eqb_eq in E;
           replace 5 with (Z.of_nat (length (slice_None :: rest)))
             by (rewrite E; reflexivity);
           rewrite py_index_length_IndexError; discriminate|].
        intros [= Hinit]. exists rest. split; [reflexivity|]. split; [|assumption].
        apply Nat.ltb_ge in E5. apply Nat.eqb_neq in E. cbn [length] in *. lia.
    + intros Hg. exfalso. exact (time_pushdown_raises _ _ _ _ _ _ _ Efull Hg).
  - intros (rest & -> & Hlen & Hinit).
    remember (S fuel) as fuel'. cbn [getitem py_len as_tuple].
    replace (5 <? length (slice_None :: rest))%nat with false
      by (symmetry; apply Nat.ltb_ge; cbn [length]; lia).
    rewrite py_index_head. cbn [is_full slice_None negb].
    replace (length (slice_None :: rest) =? 5)%nat with false
      by (symmetry; apply Nat.eqb_neq; cbn [length]; lia).
    rewrite Hinit. reflexivity.
Qed.

Lemma mcs_get_frame_row base disp fshape m shp t :
  shape disp = m :: shp -> 0 <= t < Z.of_nat m ->
  _get_frame (MotionCorrectedSequence base disp fshape) t
  = (frame ← _get_frame base t;
     Ok (_align_frame frame
           (NDArray shp (fun idx => at_ disp (Z.to_nat t :: idx))) fshape)).
Proof.
  intros Hs Ht. cbn [_get_frame]. destruct (_get_frame base t) as [f|e]; [|reflexivity].
  cbn [mbind result_bind]. rewrite (nd_getitem_row disp m shp t Hs Ht).
  cbn [mbind result_bind]. rewrite astype_id. reflexivity.
Qed.

(** X11. With at least as many displacement rows as base frames, and a
    base whose cursor is its [_get_frame] in order, the cursor of the
    motion-corrected sequence is its own [_get_frame] in order: frame [t]
    aligned with [displacements[t]]. *)
Theorem mcs_iter_is_get_frame (base : Seq) (disp : ndarray Z) (fshape : list nat)
    (n m : nat) (shp : list nat) :
  len base = Ok n ->
  iter base = yield_each (_get_frame base) (range n) ->
  shape disp = m :: shp ->
  (n <= m)%nat ->
  iter (MotionCorrectedSequence base disp fshape)
  = yield_each (_get_frame (MotionCorrectedSequence base disp fshape)) (range n).
Proof.
  intros Hlen Hiter Hs Hnm. cbn [iter]. rewrite (nd_rows_shape disp m shp Hs), Hiter.
  pose proof (izip_yield_each (_get_frame base)
                (fun i => NDArray shp (fun idx => at_ disp (i :: idx)))
                (fun f d => _align_frame f d fshape) n 0%nat m Hnm) as Hz.
  fold (range n) in Hz.
  destruct (izip _ _ _) as [pairs st]. cbn [fst snd] in Hz. rewrite Hz.
  apply yield_each_ext_in. intros t Ht. apply elem_of_range in Ht.
  rewrite (mcs_get_frame_row base disp fshape m shp t Hs) by lia. reflexivity.
Qed.

(** X12. [izip] stops at the shorter of the two: over a base whose cursor
    yields [frames] and ends normally, the cursor of a motion-corrected
    sequence with [m] displacement rows yields the first
    [min(len(frames), m)] frames, the [k]-th aligned with row [k], and
    ends normally; [__len__] still reports the length of the base. *)
Theorem mcs_iter_truncates (base : Seq) (disp : ndarray Z) (fshape : list nat)
    (frames : list (ndarray float)) (m : nat) (shp : list nat) :
  iter base = (frames, None) ->
  shape disp = m :: shp ->
  snd (iter (MotionCorrectedSequence base disp fshape)) = None
  /\ length (fst (iter (MotionCorrectedSequence base disp fshape)))
     = Nat.min (length frames) m
  /\ (forall k f, frames !! k = Some f -> (k < m)%nat ->
        fst (iter (MotionCorrectedSequence base disp fshape)) !! k
        = Some (_align_frame f (NDArray shp (fun idx => at_ disp (k :: idx))) fshape))
  /\ len (MotionCorrectedSequence base disp fshape) = len base.
Proof.
  intros Hiter Hs. cbn [iter len]. rewrite (nd_rows_shape disp m shp Hs), Hiter.
  cbn [fst snd].
  set (rows := map (fun i => NDArray shp (fun idx => at_ disp (i :: idx))) (seq 0 m)).
  destruct (izip_length frames rows) as [Hst Hlen].
  assert (Hrows : length rows = m)
    by (unfold rows; rewrite length_map, length_seq; reflexivity).
  assert (Hlk : forall k f, frames !! k = Some f -> (k < m)%nat ->
            fst (izip frames None rows) !! k
            = Some (f, NDArray shp (fun idx => at_ disp (k :: idx)))).
  { intros k f Hf Hk. apply izip_lookup; [assumption|].
    unfold rows. rewrite list_lookup_fmap, lookup_seq_lt by assumption. reflexivity. }
  destruct (izip frames None rows) as [pairs st]. cbn [fst snd] in *.
  split; [assumption|]. split; [rewrite length_map; congruence|].
  split; [|reflexivity].
  intros k f Hf Hk. rewrite list_lookup_fmap, (Hlk k f Hf Hk). reflexivity.
Qed.

End MotionCorrectedMore.

Lemma mcs_iter_is_get_frame_witness :
  iter Demo.mcs20 = yield_each (_get_frame Demo.mcs20) (range 20).
Proof.
  apply (@mcs_iter_is_get_frame Demo.externals Demo.base20 Demo.disp20 [1; 2; 3]%nat
           20 40 [2]%nat); [reflexivity | reflexivity | reflexivity | lia].
Defined.

Lemma mcs_iter_truncates_witness :
  snd (iter (MotionCorrectedSequence Demo.txy Samples.disp3 [1; 2; 3]%nat)) = None
  /\ length (fst (iter (MotionCorrectedSequence Demo.txy Samples.disp3 [1; 2; 3]%nat)))
     = Nat.min (length (fst (iter Demo.txy))) 3
  /\ (forall k f, fst (iter Demo.txy) !! k = Some f -> (k < 3)%nat ->
        fst (iter (MotionCorrectedSequence Demo.txy Samples.disp3 [1; 2; 3]%nat)) !! k
        = Some (@_align_frame Demo.externals f
                  (NDArray [2]%nat (fun idx => at_ Samples.disp3 (k :: idx)))
                  [1; 2; 3]%nat))
  /\ len (MotionCorrectedSequence Demo.txy Samples.disp3 [1; 2; 3]%nat) = len Demo.txy.
Proof.
  apply (@mcs_iter_truncates Demo.externals Demo.txy Samples.disp3 [1; 2; 3]%nat
           (fst (iter Demo.txy)) 3 [2]%nat); reflexivity.
Defined.

(* ===================================================================== *)
(** * More on the HDF5 adapter                                            *)
(* ===================================================================== *)

Section HDF5More.
Context `{Externals}.

Lemma HDF5_get_frame_unfold ds dim t :
  _Sequence_HDF5_get_frame ds dim t =
  (sw ← declared_positions (length (shape ds)) dim;
   slices ← py_setitem (replicate (length (shape ds)) slice_None) (find dim "t") (SInt t);
   frame ← nd_getitem ds slices;
   frame ← swap_loop (seq 0 (ndim frame)) sw frame;
   Ok (astype to_float frame)).
Proof.
  unfold _Sequence_HDF5_get_frame, declared_positions. cbv zeta.
  destruct (set_if_present _ _ 0) as [s1|]; [|reflexivity]. cbn [mbind result_bind].
  destruct (py_setitem s1 _ _) as [s2|]; [|reflexivity]. cbn [mbind result_bind].
  destruct (py_setitem s2 _ _) as [s3|]; [|reflexivity]. cbn [mbind result_bind].
  destruct (set_if_present s3 _ 3) as [s4|]; reflexivity.
Qed.

Lemma get_frame_spec_unfold ds dim t :
  get_frame_spec ds dim t =
  (sw ← declared_positions (length (shape ds)) dim;
   slices ← py_setitem (replicate (length (shape ds)) slice_None) (find dim "t") (SInt t);
   frame ← nd_getitem ds slices;
   frame ← reorder_spec (seq 0 (ndim frame)) sw frame;
   Ok (astype to_float frame)).
Proof.
  unfold get_frame_spec, declared_positions. cbv zeta.
  destruct (set_if_present _ _ 0) as [s1|]; [|reflexivity]. cbn [mbind result_bind].
  destruct (py_setitem s1 _ _) as [s2|]; [|reflexivity]. cbn [mbind result_bind].
  destruct (py_setitem s2 _ _) as [s3|]; [|reflexivity]. cbn [mbind result_bind].
  destruct (set_if_present s3 _ 3) as [s4|]; reflexivity.
Qed.

(** X13. When the dimension order lists the axes other than time in
    canonical order already (plane, row, column, channel), [_get_frame]
    returns what the reordering of the specification returns, exceptions
    included: the dropped result of [swapaxes] does no harm there. *)
Theorem hdf5_canonical_order_agrees (ds : ndarray dtype) (dim : string) (t : Z)
    (sw : list Z) :
  declared_positions (length (shape ds)) dim = Ok sw ->
  StronglySorted Z.lt sw ->
  _Sequence_HDF5_get_frame ds dim t = get_frame_spec ds dim t.
Proof.
  intros Hsw Hsorted. rewrite HDF5_get_frame_unfold, get_frame_spec_unfold, Hsw.
  cbn [mbind result_bind].
  destruct (py_setitem _ _ (SInt t)) as [slices|]; [|reflexivity].
  cbn [mbind result_bind].
  destruct (nd_getitem ds slices) as [frame|]; [|reflexivity].
  cbn [mbind result_bind]. rewrite (loops_agree_sorted sw Hsorted). reflexivity.
Qed.

(** X14. For the four dimension orders that are canonical with time first,
    a dataset of matching rank and a time inside the dataset, [_get_frame]
    returns the frame of the specification: the hyperslab at that time,
    converted to float; and [__len__] is the size of the first axis. *)
Theorem hdf5_time_first_frame (ds : ndarray dtype) (dim : string) (t : Z)
    (n : nat) (shp : list nat) :
  In dim ["tyx"; "tzyx"; "tyxc"; "tzyxc"]%string ->
  shape ds = n :: shp ->
  S (length shp) = String.length dim ->
  0 <= t < Z.of_nat n ->
  exists f,
    _get_frame (Sequence_HDF5 ds dim) t = Ok f
    /\ get_frame_spec ds dim t = Ok f
    /\ len (Sequence_HDF5 ds dim) = Ok n
    /\ shape f = shp
    /\ forall idx, length idx = length shp ->
         at_ f idx = to_float (at_ ds (Z.to_nat t :: idx)).
Proof.
  intros Hdim Hs Hrank Ht.
  destruct (nd_getitem_time_first ds n shp t Hs Ht) as (tr & Hnd & Htr).
  assert (Hgoal : forall sw,
    declared_positions (length (shape ds)) dim = Ok sw ->
    StronglySorted Z.lt sw ->
    find dim "t" = 0 ->
    swap_loop (seq 0 (length shp)) sw
      (NDArray shp (fun idx => at_ ds (Z.to_nat t :: tr idx)))
    = Ok (NDArray shp (fun idx => at_ ds (Z.to_nat t :: tr idx))) ->
    exists f,
      _get_frame (Sequence_HDF5 ds dim) t = Ok f
      /\ get_frame_spec ds dim t = Ok f
      /\ len (Sequence_HDF5 ds dim) = Ok n
      /\ shape f = shp
      /\ forall idx, length idx = length shp ->
           at_ f idx = to_float (at_ ds (Z.to_nat t :: idx))).
  { intros sw Hsw Hsorted Hfind Hloop.
    exists (astype to_float (NDArray shp (fun idx => at_ ds (Z.to_nat t :: tr idx)))).
    assert (Hcode : _Sequence_HDF5_get_frame ds dim t
              = Ok (astype to_float
                      (NDArray shp (fun idx => at_ ds (Z.to_nat t :: tr idx))))).
    { rewrite HDF5_get_frame_unfold, Hsw, Hfind, Hs.
      cbn [mbind result_bind length replicate].
      change (py_setitem (slice_None :: replicate (length shp) slice_None) 0 (SInt t))
        with (Ok (SInt t :: replicate (length shp) slice_None)).
      cbn [mbind result_bind]. rewrite Hnd. cbn [mbind result_bind].
      unfold ndim. cbn [shape]. rewrite Hloop. reflexivity. }
    split; [exact Hcode|]. split.
    { rewrite get_frame_spec_unfold, Hsw, Hfind, Hs.
      cbn [mbind result_bind length replicate].
      change (py_setitem (slice_None :: replicate (length shp) slice_None) 0 (SInt t))
        with (Ok (SInt t :: replicate (length shp) slice_None)).
      cbn [mbind result_bind]. rewrite Hnd. cbn [mbind result_bind].
      unfold ndim. cbn [shape]. rewrite <- (loops_agree_sorted sw Hsorted), Hloop.
      reflexivity. }
    split; [cbn [len]; rewrite Hfind, Hs; reflexivity|].
    split; [reflexivity|].
    intros idx Hidx. cbn [astype at_]. rewrite Htr by assumption. reflexivity. }
  rewrite Hs in Hgoal. cbn [length] in Hgoal.
  destruct Hdim as [<- | [<- | [<- | [<- | []]]]]; cbn in Hrank.
  - destruct shp as [|a [|b [|c shp]]]; try (cbn in Hrank; lia).
    apply (Hgoal [1; 2]); [reflexivity | repeat constructor; lia | reflexivity | reflexivity].
  - destruct shp as [|a [|b [|c [|d shp]]]]; try (cbn in Hrank; lia).
    apply (Hgoal [0; 1; 2]); [reflexivity | repeat constructor; lia | reflexivity | reflexivity].
  - destruct shp as [|a [|b [|c [|d shp]]]]; try (cbn in Hrank; lia).
    apply (Hgoal [1; 2; 3]); [reflexivity | repeat constructor; lia | reflexivity | reflexivity].
  - destruct shp as [|a [|b [|c [|d [|e shp]]]]]; try (cbn in Hrank; lia).
    apply (Hgoal [0; 1; 2; 3]); [reflexivity | repeat constructor; lia | reflexivity | reflexivity].
Qed.

(** X15. A dimension order without the letter [t] is not refused:
    [find] returns -1, which Python reads as the last position, so the
    last axis of the dataset is taken for the time axis: [__len__] is its
    size and [_get_frame(t)] reads [dataset[..., t]]. *)
Theorem hdf5_without_time_letter (ds : ndarray dtype) (dim : string)
    (shp : list nat) (n : nat) :
  ~ In "t"%char (list_ascii_of_string dim) ->
  shape ds = shp ++ [n] ->
  len (Sequence_HDF5 ds dim) = Ok n
  /\ (String.length dim = length (shape ds) ->
      _Sequence_HDF5_init ds dim = Ok (Sequence_HDF5 ds dim))
  /\ forall t f,
       _get_frame (Sequence_HDF5 ds dim) t = Ok f ->
       exists frame,
         nd_getitem ds (replicate (length shp) slice_None ++ [SInt t]) = Ok frame
         /\ f = astype to_float frame.
Proof.
  intros Hnot Hs.
  assert (Hfind : find dim "t" = -1) by (apply find_from_absent, Hnot).
  assert (Hlen : length (shape ds) = S (length shp)).
  { rewrite Hs, length_app. cbn. lia. }
  split; [|split].
  - cbn [len]. rewrite Hfind, Hs. unfold py_index. rewrite length_app. cbn [length].
    change (-1 <? 0) with true. cbv iota.
    replace (-1 + Z.of_nat (length shp + 1)) with (Z.of_nat (length shp)) by lia.
    replace ((0 <=? Z.of_nat (length shp)) &&
             (Z.of_nat (length shp) <? Z.of_nat (length shp + 1))) with true
      by (symmetry; apply andb_true_iff; split; [apply Z.leb_le | apply Z.ltb_lt]; lia).
    rewrite Nat2Z.id, lookup_app_r by lia. rewrite Nat.sub_diag. reflexivity.
  - intros Hrank. unfold _Sequence_HDF5_init. rewrite Hrank, Nat.eqb_refl. reflexivity.
  - intros t f Hf. cbn [_get_frame] in Hf.
    apply HDF5_get_frame_as_stored in Hf as (slices & frame & Hsl & Hnd & ->).
    exists frame. split; [|reflexivity].
    rewrite Hfind, Hlen in Hsl. unfold py_setitem in Hsl.
    rewrite length_replicate in Hsl. change (-1 <? 0) with true in Hsl. cbv iota in Hsl.
    replace (-1 + Z.of_nat (S (length shp))) with (Z.of_nat (length shp)) in Hsl by lia.
    replace ((0 <=? Z.of_nat (length shp)) &&
             (Z.of_nat (length shp) <? Z.of_nat (S (length shp)))) with true in Hsl
      by (symmetry; apply andb_true_iff; split; [apply Z.leb_le | apply Z.ltb_lt]; lia).
    rewrite Nat2Z.id, insert_last_replicate in Hsl. injection Hsl as <-. exact Hnd.
Qed.

End HDF5More.

Lemma hdf5_canonical_order_agrees_witness :
  @_Sequence_HDF5_get_frame Demo.externals Samples.tzyxc "tzyxc" 2
  = @get_frame_spec Demo.externals Samples.tzyxc "tzyxc" 2.
Proof.
  apply (@hdf5_canonical_order_agrees Demo.externals Samples.tzyxc "tzyxc" 2
           [0; 1; 2; 3]); [reflexivity | repeat constructor; lia].
Defined.

Lemma hdf5_time_first_frame_witness :
  exists f,
    _get_frame (@Sequence_HDF5 Demo.externals Samples.tzyxc "tzyxc") 2 = Ok f
    /\ @get_frame_spec Demo.externals Samples.tzyxc "tzyxc" 2 = Ok f
    /\ len (@Sequence_HDF5 Demo.externals Samples.tzyxc "tzyxc") = Ok 4%nat
    /\ shape f = [1; 2; 3; 2]%nat
    /\ forall idx, length idx = length [1; 2; 3; 2]%nat ->
         at_ f idx = Demo.z2f (at_ Samples.tzyxc (Z.to_nat 2 :: idx)).
Proof.
  apply (@hdf5_time_first_frame Demo.externals Samples.tzyxc "tzyxc" 2 4
           [1; 2; 3; 2]%nat);
    [right; right; right; left; reflexivity | reflexivity | reflexivity | lia].
Defined.

Lemma hdf5_without_time_letter_witness :
  len (@Sequence_HDF5 Demo.externals Samples.zyx "zyx") = Ok 5%nat
  /\ (String.length "zyx" = length (shape Samples.zyx) ->
      @_Sequence_HDF5_init Demo.externals Samples.zyx "zyx"
      = Ok (@Sequence_HDF5 Demo.externals Samples.zyx "zyx"))
  /\ forall t f,
       _get_frame (@Sequence_HDF5 Demo.externals Samples.zyx "zyx") t = Ok f ->
       exists frame,
         nd_getitem Samples.zyx (replicate (length [2; 3]%nat) slice_None ++ [SInt t])
         = Ok frame
         /\ f = astype Demo.z2f frame.
Proof.
  apply (@hdf5_without_time_letter Demo.externals Samples.zyx "zyx" [2; 3]%nat 5).
  - cbn. intros [E | [E | [E | []]]]; discriminate E.
  - reflexivity.
Defined.

(* ===================================================================== *)
(** * More on the path resolver                                           *)
(* ===================================================================== *)

Section PathMore.
Context `{FileSystem}.

Lemma list_pop_snoc {A} (l : list A) (x : A) : list_pop (l ++ [x]) = Ok (x, l).
Proof. unfold list_pop. rewrite last_snoc, removelast_last. reflexivity. Qed.

Lemma existing_mem (paths : gset string) (p : string) :
  p ∈ List.filter isfile (elements paths) <-> p ∈ paths /\ isfile p = true.
Proof.
  rewrite list_elem_of_In, filter_In, <- list_elem_of_In, elem_of_elements.
  reflexivity.
Qed.

Lemma existing_NoDup (paths : gset string) :
  NoDup (List.filter isfile (elements paths)).
Proof.
  apply NoDup_ListNoDup, List.NoDup_filter, NoDup_ListNoDup, NoDup_elements.
Qed.

(** A successful resolution returns the form without the two stored keys,
    with or without a ['path']. *)
Lemma resolve_paths_shape (d d' : gmap string string) (savedir : string) :
  _resolve_paths d savedir = Ok d' ->
  d' = delete "_abspath" (delete "_relpath" d)
  \/ exists p, d' = <["path" := p]> (delete "_abspath" (delete "_relpath" d)).
Proof.
  destruct (candidates_spec d savedir) as (_ & _ & _ & Hd). unfold _resolve_paths.
  destruct (candidates d savedir) as [paths d1]. cbn [snd] in Hd. subst d1.
  destruct (size paths =? 0)%nat; [intros [= <-]; left; reflexivity|].
  destruct (if negb _ then _ else _) as [ps|]; cbn [mbind result_bind]; [|discriminate].
  destruct (list_pop ps) as [[p rest]|]; cbn [mbind result_bind]; [|discriminate].
  intros [= <-]. right. exists p. reflexivity.
Qed.

(** A form that stores neither path is returned as it is. *)
Lemma resolve_paths_no_keys (d : gmap string string) (savedir : string) :
  d !! "_relpath" = None -> d !! "_abspath" = None ->
  _resolve_paths d savedir = Ok d.
Proof.
  intros Hr Ha. unfold _resolve_paths, candidates. rewrite Hr, Ha.
  rewrite size_empty. reflexivity.
Qed.

Lemma resolve_paths_single (d : gmap string string) (savedir p : string) :
  size (fst (candidates d savedir)) <> 0%nat ->
  List.filter isfile (elements (fst (candidates d savedir))) = [p] ->
  _resolve_paths d savedir = Ok (<["path" := p]> (snd (candidates d savedir))).
Proof.
  intros Hne Hex. unfold _resolve_paths.
  destruct (candidates d savedir) as [paths d1]. cbn [fst snd] in *.
  destruct (size paths =? 0)%nat eqn:Ez; [apply Nat.eqb_eq in Ez; contradiction|].
  rewrite Hex. reflexivity.
Qed.

(** X16. When resolution succeeds for a form that stores a path, the
    result is the form without ['_relpath'] and ['_abspath'] and with
    ['path'] set to one of the candidate locations, and that location is an
    existing file. *)
Theorem resolve_paths_result (d d' : gmap string string) (savedir : string) :
  is_Some (d !! "_relpath") \/ is_Some (d !! "_abspath") ->
  _resolve_paths d savedir = Ok d' ->
  exists p,
    d' = <["path" := p]> (delete "_abspath" (delete "_relpath" d))
    /\ p ∈ fst (candidates d savedir)
    /\ isfile p = true.
Proof.
  intros Hkeys.
  destruct (candidates_spec d savedir) as (Hsize & Hne & _ & Hd).
  cbv zeta in Hsize, Hne. specialize (Hne Hkeys). unfold _resolve_paths.
  destruct (candidates d savedir) as [paths d1]. cbn [fst snd] in *. subst d1.
  destruct (size paths =? 0)%nat eqn:Ez; [apply Nat.eqb_eq in Ez; contradiction|].
  pose proof (existing_mem paths) as Hmem.
  destruct (List.filter isfile (elements paths)) as [|p [|q l]].
  - discriminate.
  - change (Ok (<["path" := p]> (delete "_abspath" (delete "_relpath" d))) = Ok d'
            -> exists p0, d' = <["path" := p0]> (delete "_abspath" (delete "_relpath" d))
                 /\ p0 ∈ paths /\ isfile p0 = true).
    intros Heq.
    injection Heq as Heq.
    subst d'.
    exists p.
    split; [reflexivity|].
    apply Hmem.
    left.
  - assert (Hlen : (length (p :: q :: l) =? 1)%nat = false) by reflexivity.
    destruct (exists_last (l := p :: q :: l) ltac:(discriminate)) as (l0 & z & E).
    rewrite E in *. rewrite Hlen. cbn [negb]. rewrite list_pop_snoc.
    cbn [mbind result_bind].
    destruct (negb (forallb (samefile z) l0)); cbn [mbind result_bind]; [discriminate|].
    destruct (list_pop l0) as [[y rest]|] eqn:Ep; cbn [mbind result_bind]; [|discriminate].
    intros [= <-]. exists y. split; [reflexivity|].
    apply Hmem. unfold list_pop in Ep.
    destruct (last l0) as [y'|] eqn:El; [|discriminate].
    injection Ep as <- _. apply last_Some_elem_of in El.
    apply elem_of_app. left. exact El.
Qed.


(** X17. Resolution is idempotent: the result of a successful resolution
    stores neither ['_relpath'] nor ['_abspath'], so resolving it again,
    against any directory, returns it unchanged. *)
Theorem resolve_paths_twice (d d' : gmap string string) (savedir savedir' : string) :
  _resolve_paths d savedir = Ok d' ->
  _resolve_paths d' savedir' = Ok d'.
Proof.
  intros Hres.
  assert (Hcase : (d !! "_relpath" = None /\ d !! "_abspath" = None)
                  \/ (is_Some (d !! "_relpath") \/ is_Some (d !! "_abspath"))).
  { destruct (d !! "_relpath"); [right; left; eauto|].
    destruct (d !! "_abspath"); [right; right; eauto|]. left. auto. }
  destruct Hcase as [[Er Ea] | Hkeys].
  - rewrite (resolve_paths_no_keys d savedir Er Ea) in Hres.
    injection Hres as <-. apply resolve_paths_no_keys; assumption.
  - destruct (resolve_paths_shape d d' savedir Hres) as [-> | (p & ->)];
      apply resolve_paths_no_keys;
      rewrite ?lookup_insert_ne by discriminate.
    + rewrite lookup_delete_ne by discriminate. apply lookup_delete_eq.
    + apply lookup_delete_eq.
    + rewrite lookup_delete_ne by discriminate. apply lookup_delete_eq.
    + apply lookup_delete_eq.
Qed.

(** X18. Relocation: when both paths are stored and only one of the two
    candidate locations is a file, that location is the resolved path,
    whichever of the two it is. *)
Theorem resolve_paths_relocated (d : gmap string string) (savedir relp absp : string) :
  d !! "_relpath" = Some relp ->
  d !! "_abspath" = Some absp ->
  (isfile (canonical (join savedir relp)) = true /\ isfile (canonical absp) = false ->
   _resolve_paths d savedir
   = Ok (<["path" := canonical (join savedir relp)]>
           (delete "_abspath" (delete "_relpath" d))))
  /\ (isfile (canonical (join savedir relp)) = false /\ isfile (canonical absp) = true ->
   _resolve_paths d savedir
   = Ok (<["path" := canonical absp]> (delete "_abspath" (delete "_relpath" d)))).
Proof.
  intros Hr Ha.
  destruct (candidates_spec d savedir) as (_ & Hne & Hmem & Hd).
  cbv zeta in Hne, Hmem. rewrite <- Hd.
  assert (Hne' : size (fst (candidates d savedir)) <> 0%nat) by (apply Hne; left; eauto).
  split; intros [H1 H2]; apply resolve_paths_single; try assumption;
    apply NoDup_only; try apply existing_NoDup;
    intros x; rewrite existing_mem, Hmem; split.
  - intros [[(r & Hr' & ->) | (a & Ha' & ->)] Hx].
    + rewrite Hr in Hr'. injection Hr' as <-. reflexivity.
    + rewrite Ha in Ha'. injection Ha' as <-. congruence.
  - intros ->. split; [left; eauto | assumption].
  - intros [[(r & Hr' & ->) | (a & Ha' & ->)] Hx].
    + rewrite Hr in Hr'. injection Hr' as <-. congruence.
    + rewrite Ha in Ha'. injection Ha' as <-. reflexivity.
  - intros ->. split; [right; eauto | assumption].
Qed.

End PathMore.

Lemma resolve_paths_result_witness :
  exists p,
    Demo.resolved = <["path" := p]> (delete "_abspath" (delete "_relpath" Demo.stored))
    /\ p ∈ fst (@candidates Demo.files Demo.stored "/proj")
    /\ @isfile Demo.files p = true.
Proof.
  apply (@resolve_paths_result Demo.files Demo.stored Demo.resolved "/proj").
  - left. exists "a.h5"%string. reflexivity.
  - vm_compute. reflexivity.
Defined.

Lemma resolve_paths_twice_witness :
  @_resolve_paths Demo.files Demo.resolved "/elsewhere" = Ok Demo.resolved.
Proof.
  apply (@resolve_paths_twice Demo.files Demo.stored Demo.resolved "/proj" "/elsewhere").
  vm_compute. reflexivity.
Defined.

Lemma resolve_paths_relocated_witness :
  @_resolve_paths Demo.files Samples.moved "/proj"
  = Ok (<["path" := "/proj/a.h5"%string]>
          (delete "_abspath" (delete "_relpath" Samples.moved))).
Proof.
  apply (proj1 (@resolve_paths_relocated Demo.files Samples.moved "/proj"
                  "a.h5" "/gone/a.h5" eq_refl eq_refl)).
  split; reflexivity.
Defined.

(* ===================================================================== *)
(** * More on cursors                                                     *)
(* ===================================================================== *)

Section CursorMore.
Context `{Externals}.

(** X19. Whatever the interleaving, what a cursor has yielded so far is a
    prefix of the frames [_IndexableSequence.__iter__] yields: no frame is
    skipped, repeated or taken from the other cursor. *)
Theorem two_cursors_prefix (s : Seq) (schedule : list bool) :
  fst (out1 (interleave s schedule two_fresh)) `prefix_of`
      fst (_IndexableSequence_iter s)
  /\ fst (out2 (interleave s schedule two_fresh)) `prefix_of`
      fst (_IndexableSequence_iter s).
Proof.
  assert (Hpre : forall k c out, cursor_inv s k c out ->
            fst out `prefix_of` fst (_IndexableSequence_iter s)).
  { intros k c out [| n t fs Hlen Hle Hpos Hfs | k' out' Hpos ->].
    - apply prefix_nil.
    - unfold _IndexableSequence_iter. rewrite Hlen. cbn [fst].
      assert (Hsplit : exists rest, range n = range t ++ rest).
      { exists (map Z.of_nat (seq t (n - t))). unfold range.
        rewrite <- map_app, <- seq_app. do 2 f_equal. lia. }
      destruct Hsplit as [rest ->]. rewrite yield_each_app, Hfs.
      destruct (yield_each (_get_frame s) rest) as [ys st]. cbn [fst].
      apply prefix_app_r. reflexivity.
    - reflexivity. }
  destruct (interleave_inv s schedule two_fresh 0 0 (inv_fresh s) (inv_fresh s))
    as [I1 I2].
  split; eapply Hpre; eassumption.
Qed.

End CursorMore.

(* ===================================================================== *)
(** * More on the gap filler                                              *)
(* ===================================================================== *)

Module GapFillerMore.
Import GapFiller GapFillerFacts.
Local Open Scope nat_scope.

Lemma same_number_finite x y : same_number y x -> isfinite x = true -> isfinite y = true.
Proof.
  intros [-> | [Hy _]] Hx; [assumption|]. destruct y; cbn in *; congruence.
Qed.

Lemma first_non_nan_observed obs v :
  v ∈ obs -> isnan v = false ->
  first_non_nan obs ∈ obs /\ isnan (first_non_nan obs) = false.
Proof.
  intros Hin Hv. destruct (first_non_nan_cases obs) as [[_ Hall] | Hcase]; [|assumption].
  rewrite Forall_forall in Hall. rewrite (Hall v Hin) in Hv. discriminate.
Qed.

(** X20. Gaps are filled: on a stream of equally shaped frames whose
    pixels are finite or NaN, if every pixel is finite in at least one
    frame, every pixel of every emitted frame is finite. *)
Theorem fill_gaps_leaves_no_gap (shp : list nat) (frames : list (list (list float))) :
  uniform shp frames ->
  every_pixel valid frames = true ->
  every_pixel finite_or_nan frames = true ->
  (forall k f c p x, frames !! k = Some f -> pixel f c p = Some x ->
     exists v, v ∈ history frames c p /\ isfinite v = true) ->
  exists out, _fill_gaps (frames, None) (frames, None) = (out, None)
    /\ length out = length frames
    /\ forall k g c p y, out !! k = Some g -> pixel g c p = Some y ->
         isfinite y = true.
Proof.
  intros Hu Hvalid Hfn Hobs.
  destruct (fill_gaps_pixels shp frames Hu) as (out & Hrun & Hlen & Hshape & Hout).
  exists out. split; [assumption|]. split; [assumption|].
  intros k g c p y Hg Hy.
  destruct (lookup_lt_is_Some_2 frames k) as [f Hf].
  { rewrite <- Hlen. eapply lookup_lt_Some, Hg. }
  assert (Hsf : frame_shape g = frame_shape f).
  { unfold uniform in Hu. rewrite Forall_forall in Hshape, Hu.
    rewrite (Hshape g) by (eapply list_elem_of_lookup_2, Hg).
    rewrite (Hu f) by (eapply list_elem_of_lookup_2, Hf). reflexivity. }
  destruct (pixel_same_shape g f c p y Hsf Hy) as [x Hx].
  rewrite (Hout k f g c p x Hf Hx Hg) in Hy. injection Hy as <-.
  destruct (Hobs k f c p x Hf Hx) as (v & Hv & Hvfin).
  destruct (first_non_nan_observed _ v Hv (isfinite_not_nan _ Hvfin)) as [Hbin Hbn].
  set (b := first_non_nan (history frames c p)) in *.
  assert (Hbfin : isfinite b = true).
  { apply finite_or_nan_not_nan; [|assumption]. eapply every_pixel_history; eassumption. }
  assert (Hbvalid : valid b = true) by (eapply every_pixel_history; eassumption).
  rewrite latest_spec.
  destruct (most_recent_finite (history (take (S k) frames) c p)) as [m|] eqn:Emr.
  - apply most_recent_finite_Some in Emr as [_ Hmfin].
    eapply same_number_finite; [apply blend_finite; assumption | assumption].
  - eapply same_number_finite; [apply blend_nan_finite; assumption | assumption].
Qed.

Lemma fill_gaps_leaves_no_gap_witness :
  exists out, _fill_gaps (Samples.patchy, None) (Samples.patchy, None) = (out, None)
    /\ length out = length Samples.patchy
    /\ forall k g c p y, out !! k = Some g -> pixel g c p = Some y ->
         isfinite y = true.
Proof.
  apply (fill_gaps_leaves_no_gap [2] Samples.patchy).
  - repeat constructor.
  - reflexivity.
  - reflexivity.
  - intros k f c p x Hk Hx.
    assert (Hc : c = 0).
    { destruct k as [|[|k]]; try discriminate Hk;
        injection Hk as <-; destruct c as [|c]; try reflexivity;
        destruct c; discriminate Hx. }
    subst c.
    assert (Hp : p = 0 \/ p = 1).
    { destruct k as [|[|k]]; try discriminate Hk;
        injection Hk as <-; destruct p as [|[|p]]; auto; discriminate Hx. }
    destruct Hp as [-> | ->].
    + exists Demo.seven. split; [right; left | reflexivity].
    + exists Demo.one. split; [left | reflexivity].
Defined.

End GapFillerMore.
